(** * tracking-system: visitor identity, change detection and the session store

    A shallow embedding of [server.js] (the ingestion endpoint, the two query
    endpoints) and of the hashing and geolocation helpers of
    [public/tracker.js], with the properties the specification states about
    them.

    Conventions of the embedding.
    - A JavaScript string is the list of its UTF-16 code units ([jsstring]),
      so [charCodeAt i] is the i-th element.
    - A JSON field value is a [jsval]: undefined (an absent property), null,
      a boolean, a number or a string.  Numbers that travel in request bodies
      are taken to be integers in the range where doubles are exact; object-
      and array-valued fields are outside the model.
    - A JSON object is a finite map from property names to values
      ([gmap string jsval]); reading a missing property gives undefined.
    - 32-bit results are integers in [-2^31, 2^31), with the wrap-around of
      [ToInt32] written out.
    - The return rate is computed on binary64 floats, as in the source. *)

From Stdlib Require Import ZArith String Ascii Lia.
From Stdlib Require Import Hexadecimal HexadecimalString Decimal DecimalString.
From Stdlib Require Import PrimFloat FloatOps Uint63.
From Stdlib Require HexadecimalFacts HexadecimalPos HexadecimalN.
From Stdlib Require DecimalFacts DecimalPos DecimalN.
From stdpp Require Import gmap strings list fin_maps.

Local Open Scope Z_scope.

(* ===================================================================== *)
(** ** JavaScript values *)
(* ===================================================================== *)

Abbreviation jsstring := (list Z).

(** A string literal of the source, as code units. *)
Definition str (s : string) : jsstring :=
  (λ a, Z.of_N (N_of_ascii a)) <$> list_ascii_of_string s.

Inductive jsval : Type :=
  | JUndefined
  | JNull
  | JBool (b : bool)
  | JNum (n : Z)
  | JStr (s : jsstring).

#[global] Instance jsval_eq_dec : EqDecision jsval.
Proof. solve_decision. Defined.

#[global] Instance jsval_inhabited : Inhabited jsval := populate JUndefined.

Abbreviation jsobj := (gmap string jsval).

(** [o.k] *)
Definition get (o : jsobj) (k : string) : jsval := default JUndefined (o !! k).

(** ToBoolean *)
Definition truthy (v : jsval) : bool :=
  match v with
  | JUndefined | JNull => false
  | JBool b => b
  | JNum n => negb (n =? 0)
  | JStr s => negb (bool_decide (s = []))
  end.

(** ToString *)
Definition toString (v : jsval) : jsstring :=
  match v with
  | JUndefined => str "undefined"
  | JNull => str "null"
  | JBool true => str "true"
  | JBool false => str "false"
  | JNum n => str (DecimalString.NilZero.string_of_int (Z.to_int n))
  | JStr s => s
  end.

(** [a || b] *)
Definition js_or (a b : jsval) : jsval := if truthy a then a else b.

(** [a !== b] on primitive values *)
Definition strict_neq (a b : jsval) : bool := bool_decide (a ≠ b).

(** [Array.prototype.join]: undefined and null elements print as the empty
    string, every other element through ToString. *)
Definition join_elem (v : jsval) : jsstring :=
  match v with
  | JUndefined | JNull => []
  | _ => toString v
  end.

Definition join (sep : jsstring) (l : list jsval) : jsstring :=
  match l with
  | [] => []
  | x :: xs => join_elem x ++ concat ((λ y, sep ++ join_elem y) <$> xs)
  end.

(* ===================================================================== *)
(** ** 32-bit arithmetic and number formatting *)
(* ===================================================================== *)

Definition ToInt32 (n : Z) : Z :=
  let k := n mod 2 ^ 32 in
  if 2 ^ 31 <=? k then k - 2 ^ 32 else k.

(** [a << n] *)
Definition js_shl (a n : Z) : Z := ToInt32 (Z.shiftl (ToInt32 a) (n mod 32)).

(** [a & b] *)
Definition js_and (a b : Z) : Z := ToInt32 (Z.land (ToInt32 a) (ToInt32 b)).

(** [n.toString(16)] for a non-negative integer [n] *)
Definition toString16 (n : Z) : jsstring :=
  str (HexadecimalString.NilZero.string_of_uint (N.to_hex_uint (Z.to_N n))).

(** [n.toString()] for a non-negative integer [n] *)
Definition toString10 (n : Z) : jsstring :=
  str (DecimalString.NilZero.string_of_uint (N.to_uint (Z.to_N n))).

(** [s.padStart(len, fill)] *)
Definition padStart (len : nat) (fill : jsstring) (s : jsstring) : jsstring :=
  let missing := (len - length s)%nat in
  take missing (concat (replicate missing fill)) ++ s.

(* ===================================================================== *)
(** ** The rolling hash ([server.js] 30-36, [tracker.js] 27-35) *)
(* ===================================================================== *)

(** One turn of the loop body:
    [hash = ((hash << 5) - hash) + char; hash = hash & hash]. *)
Definition hash_step (hash char : Z) : Z :=
  let hash := (js_shl hash 5 - hash) + char in
  js_and hash hash.

(** [let hash = 0; for (i = 0; i < str.length; i++) { ... }] *)
Definition hash_loop (s : jsstring) : Z := fold_left hash_step s 0.

(** The hash step of [generateVisitorID], lines 30-36, on the joined string. *)
Definition hashHex (s : jsstring) : jsstring := toString16 (Z.abs (hash_loop s)).

Definition generateVisitorID (data : jsobj) : jsstring :=
  let components :=
    [ js_or (get data "ip") (JStr (str "unknown"));
      js_or (js_or (get data "audioSignatureRaw") (get data "audioSignature"))
            (JStr (str "unknown"));
      js_or (get data "userAgent") (JStr (str "unknown"));
      js_or (get data "platform") (JStr (str "unknown")) ] in
  let s := join (str "||") components in
  hashHex s.

(** [tracker.js] 27-35, the fallback of [sha256]; the loop is written out
    again, as it is in the client. *)
Definition simpleHash (s : jsstring) : jsstring :=
  let hash :=
    fold_left (λ hash char,
                 let hash := (js_shl hash 5 - hash) + char in
                 js_and hash hash) s 0 in
  padStart 16 (str "0") (toString16 (Z.abs hash)).

(* ===================================================================== *)
(** ** Records of the store ([server.js] 88-140, 160-167) *)
(* ===================================================================== *)

(** The four flags returned by [detectChanges]. *)
Module Changes.
Record t : Type := mk {
  locationChanged : bool;
  deviceChanged : bool;
  screenChanged : bool;
  ipChanged : bool
}.
End Changes.

(** [sessionData], field by field. *)
Module Session.
Record t : Type := mk {
  id : float;
  visitorID : jsstring;
  fingerprint : jsval;
  audioSignature : jsval;
  audioSignatureRaw : jsval;
  clientIP : jsval;
  serverDetectedIP : jsval;
  isLocalhost : jsval;
  city : jsval;
  region : jsval;
  correctedRegion : jsval;
  country : jsval;
  countryCode : jsval;
  latitude : jsval;
  longitude : jsval;
  timezone : jsval;
  utcOffset : jsval;
  localTime : jsval;
  gmtOffset : jsval;
  deviceType : jsval;
  org : jsval;
  countryPopulation : jsval;
  countryCallingCode : jsval;
  currencyName : jsval;
  currency : jsval;
  languages : jsval;
  countryCapital : jsval;
  userAgent : jsval;
  language : jsval;
  platform : jsval;
  hardwareConcurrency : jsval;
  deviceMemory : jsval;
  screen : jsval;
  colorDepth : jsval;
  touchSupport : jsval;
  doNotTrack : jsval;
  referrer : jsval;
  page : jsval;
  locationChanged : bool;
  deviceChanged : bool;
  screenChanged : bool;
  ipChanged : bool;
  isReturning : bool;
  timestamp : jsval;
  firstSeen : jsstring
}.
End Session.

(** The value stored in the [visitors] map. *)
Module Visitor.
Record t : Type := mk {
  visitorID : jsstring;
  fingerprint : jsval;
  visits : Z;
  firstSeen : jsstring;
  lastSeen : jsstring;
  sessions : list Session.t
}.
End Visitor.

(** [visitors] and [sessions], the two process-wide variables. *)
Record Store : Type := mkStore {
  visitors : gmap jsstring Visitor.t;
  sessions : list Session.t
}.

Definition emptyStore : Store := {| visitors := ∅; sessions := [] |}.

(** What a POST to [/api/track] brings, together with the readings of the
    clock and of the random generator the handler takes while it runs.
    [body] is [None] when the request carries no parsed body, so that
    [req.body] is undefined. *)
Record Request : Type := mkRequest {
  body : option jsobj;
  headers : gmap string jsstring;
  remoteAddress : jsval;
  date_now_plus_random : float;
  iso_timestamp : jsstring;
  iso_firstSeen : jsstring;
  iso_lastSeen : jsstring
}.

Inductive TrackResponse : Type :=
  | Track200 (data : Session.t)
  | Track500.

(* ===================================================================== *)
(** ** Change detection ([server.js] 40-68) *)
(* ===================================================================== *)

Definition sentinel : jsval := JStr (str "N/D").

Definition detectChanges (lastSession : option Session.t) (currentData : jsobj)
  : Changes.t :=
  match lastSession with
  | None => Changes.mk false false false false
  | Some lastSession =>
      {| Changes.locationChanged :=
           strict_neq (Session.city lastSession) (get currentData "city")
           && strict_neq (get currentData "city") sentinel;
         Changes.deviceChanged :=
           strict_neq (Session.audioSignature lastSession)
                      (get currentData "audioSignature")
           && strict_neq (get currentData "audioSignature") sentinel;
         Changes.screenChanged :=
           strict_neq (Session.screen lastSession) (get currentData "screen");
         Changes.ipChanged :=
           strict_neq (Session.clientIP lastSession) (get currentData "ip") |}
  end.

(* ===================================================================== *)
(** ** Ingestion ([server.js] 71-189) *)
(* ===================================================================== *)

(** [s.split(',')[0]] *)
Fixpoint split_first (sep : Z) (s : jsstring) : jsstring :=
  match s with
  | [] => []
  | c :: rest => if c =? sep then [] else c :: split_first sep rest
  end.

Definition comma : Z := 44.

(** [req.headers['x-forwarded-for']?.split(',')[0]] *)
Definition forwarded_first (req : Request) : jsval :=
  match headers req !! "x-forwarded-for" with
  | Some h => JStr (split_first comma h)
  | None => JUndefined
  end.

Definition header (req : Request) (name : string) : jsval :=
  match headers req !! name with
  | Some h => JStr h
  | None => JUndefined
  end.

Definition track (st : Store) (req : Request) : Store * TrackResponse :=
  match body req with
  | None =>
      (* [data.ip] on undefined throws inside the try block, before any
         write to the store *)
      (st, Track500)
  | Some data =>
      let visitorID := generateVisitorID data in
      let detectedIP :=
        js_or (js_or (js_or (get data "ip") (forwarded_first req))
                     (header req "x-real-ip"))
              (remoteAddress req) in
      let isReturning := bool_decide (is_Some (visitors st !! visitorID)) in
      let existingVisitor := visitors st !! visitorID in
      let lastSession := existingVisitor ≫= (λ v, last (Visitor.sessions v)) in
      let changes := detectChanges lastSession data in
      let sessionData :=
        {| Session.id := date_now_plus_random req;
           Session.visitorID := visitorID;
           Session.fingerprint := get data "fingerprint";
           Session.audioSignature := get data "audioSignature";
           Session.audioSignatureRaw := get data "audioSignatureRaw";
           Session.clientIP := get data "ip";
           Session.serverDetectedIP := detectedIP;
           Session.isLocalhost := get data "isLocalhost";
           Session.city := get data "city";
           Session.region := get data "region";
           Session.correctedRegion := get data "correctedRegion";
           Session.country := get data "country";
           Session.countryCode := get data "countryCode";
           Session.latitude := get data "latitude";
           Session.longitude := get data "longitude";
           Session.timezone := get data "timezone";
           Session.utcOffset := get data "utcOffset";
           Session.localTime := get data "localTime";
           Session.gmtOffset := get data "gmtOffset";
           Session.deviceType := get data "deviceType";
           Session.org := get data "org";
           Session.countryPopulation := get data "countryPopulation";
           Session.countryCallingCode := get data "countryCallingCode";
           Session.currencyName := get data "currencyName";
           Session.currency := get data "currency";
           Session.languages := get data "languages";
           Session.countryCapital := get data "countryCapital";
           Session.userAgent := get data "userAgent";
           Session.language := get data "language";
           Session.platform := get data "platform";
           Session.hardwareConcurrency := get data "hardwareConcurrency";
           Session.deviceMemory := get data "deviceMemory";
           Session.screen := get data "screen";
           Session.colorDepth := get data "colorDepth";
           Session.touchSupport := get data "touchSupport";
           Session.doNotTrack := get data "doNotTrack";
           Session.referrer := get data "referrer";
           Session.page := get data "page";
           Session.locationChanged := Changes.locationChanged changes;
           Session.deviceChanged := Changes.deviceChanged changes;
           Session.screenChanged := Changes.screenChanged changes;
           Session.ipChanged := Changes.ipChanged changes;
           Session.isReturning := isReturning;
           Session.timestamp :=
             js_or (get data "timestamp") (JStr (iso_timestamp req));
           Session.firstSeen := iso_firstSeen req |} in
      let visitors' :=
        match existingVisitor with
        | Some existingVisitor =>
            (* the branch [if (isReturning)]: the aggregate is updated in
               place *)
            <[visitorID :=
                {| Visitor.visitorID := Visitor.visitorID existingVisitor;
                   Visitor.fingerprint := Visitor.fingerprint existingVisitor;
                   Visitor.visits := Visitor.visits existingVisitor + 1;
                   Visitor.firstSeen := Visitor.firstSeen existingVisitor;
                   Visitor.lastSeen := iso_lastSeen req;
                   Visitor.sessions :=
                     Visitor.sessions existingVisitor ++ [sessionData] |}]>
              (visitors st)
        | None =>
            <[visitorID :=
                {| Visitor.visitorID := visitorID;
                   Visitor.fingerprint := get data "fingerprint";
                   Visitor.visits := 1;
                   Visitor.firstSeen := Session.firstSeen sessionData;
                   Visitor.lastSeen := Session.firstSeen sessionData;
                   Visitor.sessions := [sessionData] |}]>
              (visitors st)
        end in
      ({| visitors := visitors'; sessions := sessions st ++ [sessionData] |},
       Track200 sessionData)
  end.

(* ===================================================================== *)
(** ** Recent sessions ([server.js] 192-201) *)
(* ===================================================================== *)

(** The code units that [parseInt] skips at the start of its argument
    (WhiteSpace and LineTerminator). *)
Definition is_whitespace (c : Z) : bool :=
  bool_decide (c ∈ [9; 10; 11; 12; 13; 32; 160; 5760; 8232; 8233; 8239; 8287;
                    12288; 65279])
  || ((8192 <=? c) && (c <=? 8202)).

Fixpoint trim_start (s : jsstring) : jsstring :=
  match s with
  | c :: rest => if is_whitespace c then trim_start rest else s
  | [] => []
  end.

(** The value of a code unit as a digit: 0-9, then a-z and A-Z from 10. *)
Definition digit_value (c : Z) : option Z :=
  if (48 <=? c) && (c <=? 57) then Some (c - 48)
  else if (97 <=? c) && (c <=? 122) then Some (c - 87)
  else if (65 <=? c) && (c <=? 90) then Some (c - 55)
  else None.

(** The longest prefix of radix-[R] digits. *)
Fixpoint digits_prefix (R : Z) (s : jsstring) : list Z :=
  match s with
  | c :: rest =>
      match digit_value c with
      | Some d => if d <? R then d :: digits_prefix R rest else []
      | None => []
      end
  | [] => []
  end.

(** [parseInt(v)] with no radix argument; [None] is NaN.  The result is kept
    exact: the source rounds it to a double, which makes no difference to a
    slice of an array. *)
Definition parseInt (v : jsval) : option Z :=
  let input := trim_start (toString v) in
  let sign := match input with 45 :: _ => -1 | _ => 1 end in
  let input :=
    match input with 43 :: rest | 45 :: rest => rest | _ => input end in
  let '(R, input) :=
    match input with
    | 48 :: x :: rest =>
        if (x =? 120) || (x =? 88) then (16, rest) else (10, input)
    | _ => (10, input)
    end in
  let digits := digits_prefix R input in
  match digits with
  | [] => None
  | _ => Some (sign * fold_left (λ acc d, acc * R + d) digits 0)
  end.

(** [parseInt(req.query.limit) || 50] *)
Definition limit_of (query_limit : jsval) : Z :=
  match parseInt query_limit with
  | Some n => if n =? 0 then 50 else n
  | None => 50
  end.

(** [l.slice(start)] *)
Definition slice_from {A : Type} (start : Z) (l : list A) : list A :=
  let len := Z.of_nat (length l) in
  let k := if start <? 0 then Z.max (len + start) 0 else Z.min start len in
  drop (Z.to_nat k) l.

Record SessionsResponse : Type := mkSessionsResponse {
  sessions_success : bool;
  sessions_total : Z;
  recentSessions : list Session.t
}.

(** [query_limit] is [req.query.limit]: undefined when the parameter is
    absent, its text otherwise.  [slice] copies, so the in-place [reverse]
    leaves the log as it was. *)
Definition getSessions (st : Store) (query_limit : jsval) : SessionsResponse :=
  let limit := limit_of query_limit in
  let recentSessions := reverse (slice_from (- limit) (sessions st)) in
  {| sessions_success := true;
     sessions_total := Z.of_nat (length (sessions st));
     recentSessions := recentSessions |}.

(* ===================================================================== *)
(** ** Statistics ([server.js] 204-270), the visitor counts *)
(* ===================================================================== *)

(** A count as a JavaScript number. *)
Definition of_count (n : Z) : float := PrimFloat.of_uint63 (Uint63.of_Z n).

(** The digits of [toFixed(1)] for the integer [n] of tenths: at least two
    digits, a point before the last. *)
Definition fixed1_digits (n : Z) : jsstring :=
  let m := toString10 n in
  let m := if (length m <=? 1)%nat then str "0" ++ m else m in
  let k := length m in
  take (k - 1)%nat m ++ str "." ++ drop (k - 1)%nat m.

(** [mantissa * 2^exponent >= 10^21] *)
Definition at_least_1e21 (mantissa : positive) (exponent : Z) : bool :=
  if 0 <=? exponent then 10 ^ 21 <=? Z.pos mantissa * 2 ^ exponent
  else 10 ^ 21 * 2 ^ (- exponent) <=? Z.pos mantissa.

(** The integer [n] for which [n / 10] is nearest to [mantissa * 2^exponent],
    the larger one when two are as near. *)
Definition nearest_tenths (mantissa : positive) (exponent : Z) : Z :=
  let num := 10 * Z.pos mantissa in
  if 0 <=? exponent then num * 2 ^ exponent
  else (2 * num + 2 ^ (- exponent)) / (2 * 2 ^ (- exponent)).

(** [x.toFixed(1)].  Values of 1e21 and more are printed by the source
    through Number::toString, in exponent notation, which is not expanded
    here: they give [None].  The quotient of two counts never gets there. *)
Definition toFixed1 (x : float) : option jsstring :=
  match Prim2SF x with
  | SpecFloat.S754_nan => Some (str "NaN")
  | SpecFloat.S754_infinity false => Some (str "Infinity")
  | SpecFloat.S754_infinity true => Some (str "-Infinity")
  | SpecFloat.S754_zero _ => Some (fixed1_digits 0)
  | SpecFloat.S754_finite negative mantissa exponent =>
      if at_least_1e21 mantissa exponent then None
      else Some ((if negative then str "-" else [])
                 ++ fixed1_digits (nearest_tenths mantissa exponent))
  end.

(** The counts of the response.  The seven frequency tables are not part of
    this development; what is kept of the scan that builds them is that
    [session.userAgent.match(...)] throws on a session whose user agent is
    not a string. *)
Record Stats : Type := mkStats {
  uniqueVisitors : Z;
  totalSessions : Z;
  returningVisitors : Z;
  returnRate : option jsstring
}.

Definition is_string (v : jsval) : bool :=
  match v with JStr _ => true | _ => false end.

(** [visitors.forEach(visitor => { if (visitor.visits > 1) returningVisitors++ })] *)
Definition count_returning (vs : gmap jsstring Visitor.t) : Z :=
  map_fold (λ _ visitor returningVisitors,
              if 1 <? Visitor.visits visitor then returningVisitors + 1
              else returningVisitors) 0 vs.

(** [returnRate + '%'] *)
Definition return_rate (returningVisitors uniqueVisitors : Z) : option jsstring :=
  if 0 <? uniqueVisitors then
    rate ← toFixed1 (PrimFloat.mul
                       (PrimFloat.div (of_count returningVisitors)
                                      (of_count uniqueVisitors))
                       (of_count 100));
    Some (rate ++ str "%")
  else Some (toString (JNum 0) ++ str "%").

(** [None]: the handler throws and the framework answers 500. *)
Definition getStats (st : Store) : option Stats :=
  if forallb (λ session, is_string (Session.userAgent session)) (sessions st)
  then
    let uniqueVisitors := Z.of_nat (size (visitors st)) in
    let totalSessions := Z.of_nat (length (sessions st)) in
    let returningVisitors := count_returning (visitors st) in
    Some {| uniqueVisitors := uniqueVisitors;
            totalSessions := totalSessions;
            returningVisitors := returningVisitors;
            returnRate := return_rate returningVisitors uniqueVisitors |}
  else None.

(* ===================================================================== *)
(** ** The geolocation resolver ([tracker.js] 112-162) *)
(* ===================================================================== *)

(** What can be thrown inside [fetchIPData]. *)
Inductive exn : Type :=
  | Error (message : string)      (* [throw new Error(message)] *)
  | FetchRejected                 (* [fetch] rejects: no response at all *)
  | BodyRejected                  (* [r.json()] rejects: the body is not JSON *)
  | TypeError.                    (* a property read on null *)

(** A settled promise, awaited: the value, or the exception thrown at the
    [await]. *)
Inductive outcome (A : Type) : Type :=
  | Returns (a : A)
  | Throws (e : exn).
Arguments Returns {A} a.
Arguments Throws {A} e.

#[global] Instance outcome_ret : MRet outcome := λ A a, Returns a.
#[global] Instance outcome_bind : MBind outcome := λ A B f m,
  match m with
  | Returns a => f a
  | Throws e => Throws e
  end.

(** [try { body } catch (err) { handler }] *)
Definition try_catch {A : Type} (body : outcome A) (handler : exn → outcome A)
  : outcome A :=
  match body with
  | Returns a => Returns a
  | Throws e => handler e
  end.

(** [if (cond) throw new Error(message)] *)
Definition throw_if (cond : bool) (message : string) : outcome unit :=
  if cond then Throws (Error message) else Returns ().

(** A response: its [ok] flag and what [json()] settles to.  The parsed body
    is [None] for the JSON value null, whose property reads throw, and the
    object itself otherwise (a JSON number, string or boolean has none of the
    properties read here, like the empty object). *)
Record HttpResponse : Type := mkHttpResponse {
  ok : bool;
  json : outcome (option jsobj)
}.

(** What the three providers answer to the one request each may receive. *)
Record Providers : Type := mkProviders {
  ipapi_co : outcome HttpResponse;
  ip_api_com : outcome HttpResponse;
  ipify_org : outcome HttpResponse
}.

(** [data.k], on a parsed body *)
Definition read (data : option jsobj) (k : string) : outcome jsval :=
  match data with
  | Some o => Returns (get o k)
  | None => Throws TypeError
  end.

Definition object (fields : list (string * jsval)) : jsobj := list_to_map fields.

Definition primary (net : Providers) : outcome jsobj :=
  r ← ipapi_co net;
  _ ← throw_if (negb (ok r)) "ipapi falhou";
  data ← json r;
  error ← read data "error";
  ip ← read data "ip";
  _ ← throw_if (truthy error || negb (truthy ip)) "ipapi limitou";
  Returns (default ∅ data).

Definition secondary (net : Providers) : outcome jsobj :=
  r2 ← ip_api_com net;
  _ ← throw_if (negb (ok r2)) "ip-api falhou";
  data2 ← json r2;
  status ← read data2 "status";
  _ ← throw_if (strict_neq status (JStr (str "success"))) "ip-api falhou";
  let data2 := default ∅ data2 in
  Returns (object
    [ ("ip", get data2 "query");
      ("city", get data2 "city");
      ("region", get data2 "regionName");
      ("country_code", get data2 "countryCode");
      ("country_name", get data2 "country");
      ("timezone", get data2 "timezone");
      ("utc_offset", JNull);
      ("org", get data2 "isp");
      ("country_population", JNull);
      ("country_calling_code", JNull);
      ("currency_name", JNull);
      ("currency", JNull);
      ("languages", JNull);
      ("country_capital", JNull);
      ("latitude", get data2 "lat");
      ("longitude", get data2 "lon") ]).

Definition tertiary (net : Providers) : outcome jsobj :=
  r3 ← ipify_org net;
  _ ← throw_if (negb (ok r3)) "ipify falhou";
  data3 ← json r3;
  ip ← read data3 "ip";
  _ ← throw_if (negb (truthy ip)) "ipify falhou";
  Returns (object
    [ ("ip", ip);
      ("city", JStr (str "N/D"));
      ("region", JStr (str "N/D"));
      ("country_code", JStr (str "N/D"));
      ("country_name", JStr (str "N/D"));
      ("timezone", JNull);
      ("utc_offset", JNull);
      ("org", JStr (str "N/D")) ]).

(** The outer [try] holds the first provider, its [catch] an inner [try] with
    the second, and the inner [catch] the third, outside any [try]. *)
Definition fetchIPData (net : Providers) : outcome jsobj :=
  try_catch (primary net) (λ err,
    try_catch (secondary net) (λ err2,
      tertiary net)).

(* ===================================================================== *)
(** ** The server as a machine *)
(* ===================================================================== *)

Inductive Op : Type :=
  | PostTrack (req : Request)
  | GetSessions (query_limit : jsval)
  | GetStats.

Inductive Reply : Type :=
  | TrackReply (r : TrackResponse)
  | SessionsReply (r : SessionsResponse)
  | StatsReply (r : option Stats).

(** One request, served to completion against the store. *)
Definition handle (st : Store) (op : Op) : Store * Reply :=
  match op with
  | PostTrack req => let '(st', r) := track st req in (st', TrackReply r)
  | GetSessions query_limit => (st, SessionsReply (getSessions st query_limit))
  | GetStats => (st, StatsReply (getStats st))
  end.

(** The requests in the order served; the replies in the same order. *)
Fixpoint run (st : Store) (ops : list Op) : Store * list Reply :=
  match ops with
  | [] => (st, [])
  | op :: rest =>
      let '(st', r) := handle st op in
      let '(st'', rs) := run st' rest in
      (st'', r :: rs)
  end.

Definition is_ingested (r : Reply) : bool :=
  match r with
  | TrackReply (Track200 _) => true
  | _ => false
  end.

(* ===================================================================== *)
(** ** The specification's reading of the identity hash *)
(* ===================================================================== *)

(** The rolling hash in the specification's words: each character folds into
    [hash * 31 + charCode], truncated to 32-bit signed. *)
Definition spec_rolling_hash (s : jsstring) : Z :=
  fold_left (λ hash charCode, ToInt32 (hash * 31 + charCode)) s 0.

(** A field is absent for the source's [||] when it is undefined, null,
    false, zero or the empty string; such a field is replaced by "unknown". *)
Definition or_unknown (v : jsval) : jsstring :=
  if truthy v then toString v else str "unknown".

(** The audio signature that enters the hash: the raw one if present, else
    the processed one. *)
Definition audio_input (data : jsobj) : jsval :=
  if truthy (get data "audioSignatureRaw") then get data "audioSignatureRaw"
  else get data "audioSignature".

Definition separator : jsstring := str "||".

(** The identifier as a function of the four inputs. *)
Definition spec_VisitorID (ip audio userAgent platform : jsval) : jsstring :=
  toString16 (Z.abs (spec_rolling_hash
    (or_unknown ip ++ separator ++ or_unknown audio ++ separator
     ++ or_unknown userAgent ++ separator ++ or_unknown platform))).

(* ===================================================================== *)
(** ** Observations on a run *)
(* ===================================================================== *)




(** The latest record of visitor [id] in a stretch of the log. *)
Definition previous_session (id : jsstring) (log : list Session.t)
  : option Session.t :=
  last (filter (λ s, Session.visitorID s = id) log).

(** The session list of visitor [id] in the store, empty for an unknown
    visitor. *)
Definition sessions_of (st : Store) (id : jsstring) : list Session.t :=
  from_option Visitor.sessions [] (visitors st !! id).

(** Two invariants of the store. *)
Definition counters_agree (st : Store) : Prop :=
  ∀ id v, visitors st !! id = Some v →
          Visitor.visits v = Z.of_nat (length (Visitor.sessions v)).


(** Each aggregate's list is its visitor's part of the log, in log order. *)
Definition lists_follow_log (st : Store) : Prop :=
  ∀ id, sessions_of st id
        = filter (λ s, Session.visitorID s = id) (sessions st).

(** The flags of record [s] against the preceding record of its visitor, as
    [detectChanges] raises them: the city and the processed audio signature
    with the sentinel exempted, the screen and the declared IP on any
    difference. *)
Definition flags_follow (prev : option Session.t) (s : Session.t) : Prop :=
  match prev with
  | None =>
      Session.locationChanged s = false ∧ Session.deviceChanged s = false
      ∧ Session.screenChanged s = false ∧ Session.ipChanged s = false
  | Some p =>
      (Session.locationChanged s = true
       ↔ Session.city p ≠ Session.city s ∧ Session.city s ≠ sentinel)
      ∧ (Session.deviceChanged s = true
         ↔ Session.audioSignature p ≠ Session.audioSignature s
           ∧ Session.audioSignature s ≠ sentinel)
      ∧ (Session.screenChanged s = true
         ↔ Session.screen p ≠ Session.screen s)
      ∧ (Session.ipChanged s = true
         ↔ Session.clientIP p ≠ Session.clientIP s)
  end.

Definition flags_follow_log (log : list Session.t) : Prop :=
  ∀ pre s post,
    log = pre ++ s :: post →
    flags_follow (previous_session (Session.visitorID s) pre) s.

(** An aggregate in the store has at least one session. *)
Definition lists_nonempty (st : Store) : Prop :=
  ∀ id v, visitors st !! id = Some v → Visitor.sessions v ≠ [].

(** What holds of every store reached from the empty one. *)
Definition store_invariant (st : Store) : Prop :=
  counters_agree st ∧ lists_follow_log st ∧ lists_nonempty st.



(* ===================================================================== *)
(** ** The specification's reading of the return rate's format *)
(* ===================================================================== *)



(* ===================================================================== *)
(** ** The resolver's outcomes, named *)
(* ===================================================================== *)

Definition throws {A : Type} (m : outcome A) : Prop := ∃ e, m = Throws e.

(** The record of the last tier: an address, and the sentinel in every
    descriptive field. *)
Definition sentinel_record (data : jsobj) : Prop :=
  truthy (get data "ip") = true
  ∧ get data "city" = sentinel
  ∧ get data "region" = sentinel
  ∧ get data "country_code" = sentinel
  ∧ get data "country_name" = sentinel
  ∧ get data "org" = sentinel.

(* ===================================================================== *)
(** ** Sample inputs *)
(* ===================================================================== *)

Module Sample.

(** A body with the four identity inputs of one visitor, and the city and
    the screen given. *)
Definition body_of (ip platform : string) (city screen : jsval) : jsobj :=
  {[ "ip" := JStr (str ip);
     "audioSignatureRaw" := JStr (str "35");
     "audioSignature" := JStr (str "6DD28E9B");
     "userAgent" := JStr (str "Mozilla/5.0 Chrome/120.0");
     "platform" := JStr (str platform);
     "city" := city;
     "screen" := screen ]}.

Definition post (data : jsobj) : Request :=
  {| body := Some data;
     headers := ∅;
     remoteAddress := JStr (str "198.51.100.4");
     date_now_plus_random := 1700000000000.25%float;
     iso_timestamp := str "2023-11-14T22:13:20.000Z";
     iso_firstSeen := str "2023-11-14T22:13:20.001Z";
     iso_lastSeen := str "2023-11-14T22:13:20.002Z" |}.

(** A request whose body was not parsed. *)
Definition post_without_body : Request :=
  {| body := None;
     headers := ∅;
     remoteAddress := JStr (str "198.51.100.4");
     date_now_plus_random := 1700000000001.5%float;
     iso_timestamp := str "2023-11-14T22:13:21.000Z";
     iso_firstSeen := str "2023-11-14T22:13:21.001Z";
     iso_lastSeen := str "2023-11-14T22:13:21.002Z" |}.

Definition hd_screen : jsval := JStr (str "1920x1080").

Definition A (city screen : jsval) : jsobj :=
  body_of "203.0.113.7" "Linux x86_64" city screen.
Definition B (city screen : jsval) : jsobj :=
  body_of "192.0.2.55" "MacIntel" city screen.

Definition A_lisbon : jsobj := A (JStr (str "Lisboa")) hd_screen.
Definition A_porto : jsobj := A (JStr (str "Porto")) hd_screen.
Definition B_lisbon : jsobj := B (JStr (str "Lisboa")) hd_screen.





(** Visitor A twice, then visitor B once. *)
Definition A_twice_B_once : list Op :=
  [ PostTrack (post A_lisbon); PostTrack (post A_porto);
    PostTrack (post B_lisbon) ].

Definition id_A : jsstring := generateVisitorID A_lisbon.

(** No provider can be reached. *)
Definition offline : Providers :=
  {| ipapi_co := Throws FetchRejected;
     ip_api_com := Throws FetchRejected;
     ipify_org := Throws FetchRejected |}.

(** The first provider is rate limited, the second answers 500, the third
    answers with an address. *)
Definition last_tier_only : Providers :=
  {| ipapi_co :=
       Returns {| ok := true;
                  json := Returns (Some {[ "error" := JBool true ]}) |};
     ip_api_com := Returns {| ok := false; json := Throws BodyRejected |};
     ipify_org :=
       Returns {| ok := true;
                  json := Returns (Some {[ "ip" := JStr (str "203.0.113.7") ]}) |} |}.

End Sample.

(* ===================================================================== *)
(** ** The checksum of the audio signature ([tracker.js] 38-60, 198-200) *)
(* ===================================================================== *)

Definition ToUint32 (n : Z) : Z := n mod 2 ^ 32.

(** [a ^ b] *)
Definition js_xor (a b : Z) : Z := ToInt32 (Z.lxor (ToInt32 a) (ToInt32 b)).

(** [a >>> n] *)
Definition js_ushr (a n : Z) : Z := Z.shiftr (ToUint32 a) (n mod 32).

(** [s.toUpperCase()] on the output of [toString(16)], where the letters are
    a to f; other ASCII letters are raised alike, and no other character is
    changed. *)
Definition toUpperCase (s : jsstring) : jsstring :=
  (λ c, if (97 <=? c) && (c <=? 122) then c - 32 else c) <$> s.

(** [c = ((c & 1) ? (0xEDB88320 ^ (c >>> 1)) : (c >>> 1))] *)
Definition crc_turn (c : Z) : Z :=
  if negb (js_and c 1 =? 0) then js_xor 3988292384 (js_ushr c 1)
  else js_ushr c 1.

(** [makeCRCTable]: for [n] from 0 to 255, eight turns from [n]. *)
Definition makeCRCTable : list Z :=
  (λ n, Nat.iter 8 crc_turn (Z.of_nat n)) <$> seq 0 256.

(** [crcTable[i]], which reads as 0 under [^] when out of range. *)
Definition table_at (crcTable : list Z) (i : Z) : Z :=
  default 0 (crcTable !! Z.to_nat i).

(** The value of [crc] when the loop ends. *)
Definition crc_loop (s : jsstring) : Z :=
  let crcTable := makeCRCTable in
  let crc := js_xor 0 (-1) in
  fold_left (λ crc charCode,
               js_xor (js_ushr crc 8)
                      (table_at crcTable (js_and (js_xor crc charCode) 255)))
            s crc.

Definition crc32 (s : jsstring) : jsstring :=
  let crc := crc_loop s in
  padStart 8 (str "0")
    (toUpperCase (toString16 (js_ushr (js_xor crc (-1)) 0))).

(** [audioSig !== "ERROR" && audioSig !== "UNSUPPORTED" ? crc32(audioSig) : "N/D"],
    the processed signature sent as [audioSignature]. *)
Definition audioCRC_of (audioSig : jsstring) : jsstring :=
  if strict_neq (JStr audioSig) (JStr (str "ERROR"))
     && strict_neq (JStr audioSig) (JStr (str "UNSUPPORTED"))
  then crc32 audioSig
  else str "N/D".

(* ===================================================================== *)
(** ** Digits, for the shape of printed numbers *)
(* ===================================================================== *)

(** [0-9a-f] and [0-9A-F] *)
Definition is_lower_hex (c : Z) : bool :=
  ((48 <=? c) && (c <=? 57)) || ((97 <=? c) && (c <=? 102)).
Definition is_upper_hex (c : Z) : bool :=
  ((48 <=? c) && (c <=? 57)) || ((65 <=? c) && (c <=? 70)).

(** The hexadecimal digit of value [k], put before [d]. *)
Definition hex_digit (k : N) (d : Hexadecimal.uint) : Hexadecimal.uint :=
  match k with
  | 0 => Hexadecimal.D0 d | 1 => Hexadecimal.D1 d | 2 => Hexadecimal.D2 d
  | 3 => Hexadecimal.D3 d | 4 => Hexadecimal.D4 d | 5 => Hexadecimal.D5 d
  | 6 => Hexadecimal.D6 d | 7 => Hexadecimal.D7 d | 8 => Hexadecimal.D8 d
  | 9 => Hexadecimal.D9 d | 10 => Hexadecimal.Da d | 11 => Hexadecimal.Db d
  | 12 => Hexadecimal.Dc d | 13 => Hexadecimal.Dd d | 14 => Hexadecimal.De d
  | _ => Hexadecimal.Df d
  end%N.

(** The digits of [n], least significant first, at most [fuel] of them. *)
Fixpoint hex_lu (fuel : nat) (n : N) : Hexadecimal.uint :=
  match fuel with
  | O => Hexadecimal.Nil
  | S fuel =>
      if (n =? 0)%N then Hexadecimal.Nil
      else hex_digit (n mod 16) (hex_lu fuel (n / 16))
  end.

(* ===================================================================== *)
(** ** Records of a log against the stretch before them *)
(* ===================================================================== *)

(** [Q pre s] holds of every record [s] of the log, [pre] being the records
    before it. *)
Definition each_record (Q : list Session.t → Session.t → Prop)
    (log : list Session.t) : Prop :=
  ∀ pre s post, log = pre ++ s :: post → Q pre s.

(** The records of visitor [id], in log order. *)
Definition records_of (id : jsstring) (log : list Session.t) : list Session.t :=
  filter (λ s, Session.visitorID s = id) log.

(** A record is marked as returning exactly when its visitor has an earlier
    record. *)
Definition returning_marks_repeat (pre : list Session.t) (s : Session.t) : Prop :=
  Session.isReturning s = true ↔ records_of (Session.visitorID s) pre ≠ [].


(* ===================================================================== *)
(** ** The browser table of the statistics ([server.js] 210, 226-227) *)
(* ===================================================================== *)

Fixpoint starts_with (prefix s : jsstring) : bool :=
  match prefix, s with
  | [], _ => true
  | p :: prefix, c :: s => (p =? c) && starts_with prefix s
  | _ :: _, [] => false
  end.

Definition browser_tokens : list jsstring :=
  [str "Chrome"; str "Firefox"; str "Safari"; str "Edge"; str "Opera"].

(** [s.match(/(Chrome|Firefox|Safari|Edge|Opera)/)?.[0]]: at the leftmost
    position where an alternative matches, the first alternative that
    does. *)
Fixpoint match_browser (s : jsstring) : option jsstring :=
  match List.find (λ token, starts_with token s) browser_tokens with
  | Some token => Some token
  | None =>
      match s with
      | [] => None
      | _ :: rest => match_browser rest
      end
  end.

(** [session.userAgent.match(...)?.[0] || 'Other'] *)
Definition browser_of (userAgent : jsstring) : jsstring :=
  default (str "Other") (match_browser userAgent).








(* ===================================================================== *)
(** ** The digest of the fingerprint ([tracker.js] 8-24) *)
(* ===================================================================== *)

(** [b.toString(16).padStart(2, "0")] *)
Definition byte_hex (b : Z) : jsstring := padStart 2 (str "0") (toString16 b).

(** [hashArray.map(b => ...).join("")] *)
Definition hex_of_bytes (bytes : list Z) : jsstring :=
  concat (byte_hex <$> bytes).

(** [sha256].  [subtle] is the digest primitive of the browser, taken as a
    parameter: [None] when [crypto.subtle.digest] is missing, and otherwise
    the bytes [crypto.subtle.digest("SHA-256", encoder.encode(str))] settles
    to, or the exception it or the encoder throws. *)
Definition sha256 (subtle : option (jsstring → outcome (list Z)))
    (s : jsstring) : jsstring :=
  match subtle with
  | None => simpleHash s
  | Some digest =>
      match digest s with
      | Returns hashArray => hex_of_bytes hashArray
      | Throws err => simpleHash s
      end
  end.

(** Two hexadecimal digits read back as a number. *)
Definition hex_value (c : Z) : Z :=
  if (48 <=? c) && (c <=? 57) then c - 48 else c - 87.

Fixpoint bytes_of_hex (s : jsstring) : list Z :=
  match s with
  | hi :: lo :: rest => (16 * hex_value hi + hex_value lo) :: bytes_of_hex rest
  | _ => []
  end.

(* ===================================================================== *)
(** ** The region correction ([tracker.js] 165-186) *)
(* ===================================================================== *)

(** [geoData.results], by what the function does with it: nothing when it
    is falsy or has no [length] above 0; a TypeError when it has one and is
    no array (a string, an object); a search when it is an array, whose
    elements are [None] for null, the object for an object and the empty
    object for any other value, which has none of the properties read. *)
Inductive GeoResults : Type :=
  | NoResults
  | NotAnArray
  | Results (elements : list (option jsobj)).

(** The response of the geocoding request; its status is not looked at.
    The parsed body is [None] for the JSON value null. *)
Record GeoResponse : Type := mkGeoResponse {
  geo_json : outcome (option GeoResults)
}.

Record Corrected : Type := mkCorrected {
  correctedRegion : jsval;
  correctedCountry : jsval
}.

(** Whether a string is well-formed UTF-16: [encodeURIComponent] throws a
    URIError on a lone surrogate. *)
Fixpoint well_formed (s : jsstring) : bool :=
  match s with
  | [] => true
  | c :: rest =>
      if (55296 <=? c) && (c <=? 56319) then
        match rest with
        | d :: rest' => (56320 <=? d) && (d <=? 57343) && well_formed rest'
        | [] => false
        end
      else if (56320 <=? c) && (c <=? 57343) then false
      else well_formed rest
  end.

(** [results.find(c => c.country_code === countryCode)] *)
Fixpoint find_country (elements : list (option jsobj)) (countryCode : jsval)
  : outcome (option jsobj) :=
  match elements with
  | [] => Returns None
  | c :: rest =>
      country_code ← read c "country_code";
      if negb (strict_neq country_code countryCode) then Returns c
      else find_country rest countryCode
  end.

Definition correctLocation (geo : outcome GeoResponse)
    (city countryCode region : jsval) : outcome Corrected :=
  try_catch
    (_ ← throw_if (negb (well_formed (toString city))) "URI malformed";
     geoRes ← geo;
     geoData ← geo_json geoRes;
     match geoData with
     | None => Throws TypeError
     | Some NotAnArray => Throws TypeError
     | Some NoResults =>
         Returns {| correctedRegion := region; correctedCountry := JNull |}
     | Some (Results elements) =>
         found ← find_country elements countryCode;
         match found with
         | Some found =>
             Returns {| correctedRegion := js_or (get found "admin1") region;
                        correctedCountry := js_or (get found "country") JNull |}
         | None =>
             Returns {| correctedRegion := region; correctedCountry := JNull |}
         end
     end)
    (λ err, Returns {| correctedRegion := region; correctedCountry := JNull |}).

(* ===================================================================== *)
(** ** The device type ([tracker.js] 221-226) *)
(* ===================================================================== *)

(** The canonical form of a code unit under the [i] flag, as far as a
    pattern of ASCII letters can tell: a to z are raised, and no code unit
    above 127 becomes an ASCII one. *)
Definition canonical (c : Z) : Z :=
  if (97 <=? c) && (c <=? 122) then c - 32 else c.

Fixpoint starts_with_ci (pattern s : jsstring) : bool :=
  match pattern, s with
  | [], _ => true
  | p :: pattern, c :: s =>
      (canonical p =? canonical c) && starts_with_ci pattern s
  | _ :: _, [] => false
  end.

(** [/pattern/i.test(s)] for a pattern of letters *)
Fixpoint test_ci (pattern s : jsstring) : bool :=
  starts_with_ci pattern s
  || match s with
     | [] => false
     | _ :: rest => test_ci pattern rest
     end.

Definition detectDeviceType (ua : jsstring) : jsstring :=
  if test_ci (str "Mobi") ua || test_ci (str "Android") ua then str "Mobile"
  else if test_ci (str "Tablet") ua || test_ci (str "iPad") ua then str "Tablet"
  else str "Desktop".

(* ===================================================================== *)
(** ** Further sample inputs *)
(* ===================================================================== *)

Module Sample2.


Definition chrome_ua : jsstring :=
  str "Mozilla/5.0 (X11; Linux x86_64) AppleWebKit/537.36 (KHTML, like Gecko) Chrome/120.0 Safari/537.36".

Definition ipad_ua : jsstring :=
  str "Mozilla/5.0 (iPad; CPU OS 16_6 like Mac OS X) AppleWebKit/605.1.15 (KHTML, like Gecko) Version/16.6 Mobile/15E148 Safari/604.1".

End Sample2.

Module Sample3.

(** The first provider answers in full; the other two differ between the
    two situations. *)
Definition first_tier (others : outcome HttpResponse) : Providers :=
  {| ipapi_co :=
       Returns {| ok := true;
                  json := Returns (Some {[ "ip" := JStr (str "203.0.113.7");
                                           "city" := JStr (str "Lisboa") ]}) |};
     ip_api_com := others;
     ipify_org := others |}.

(** The first provider is rate limited and the second answers. *)
Definition second_tier (third : outcome HttpResponse) : Providers :=
  {| ipapi_co :=
       Returns {| ok := true;
                  json := Returns (Some {[ "error" := JBool true ]}) |};
     ip_api_com :=
       Returns {| ok := true;
                  json := Returns (Some {[ "status" := JStr (str "success");
                                           "query" := JStr (str "203.0.113.7");
                                           "city" := JStr (str "Lisboa") ]}) |};
     ipify_org := third |}.

Definition answers_500 : outcome HttpResponse :=
  Returns {| ok := false; json := Throws BodyRejected |}.

End Sample3.

Module Sample4.

(** A request that came through a proxy. *)
Definition proxied (data : jsobj) : Request :=
  {| body := Some data;
     headers := {[ "x-forwarded-for" := str "198.51.100.9, 10.0.0.1" ]};
     remoteAddress := JStr (str "10.0.0.1");
     date_now_plus_random := 1700000000000.25%float;
     iso_timestamp := str "2023-11-14T22:13:20.000Z";
     iso_firstSeen := str "2023-11-14T22:13:20.001Z";
     iso_lastSeen := str "2023-11-14T22:13:20.002Z" |}.

(** A body that declares no address. *)
Definition no_ip : jsobj := {[ "platform" := JStr (str "Linux x86_64") ]}.

End Sample4.

(* ===================================================================== *)
(** * Properties *)
(* ===================================================================== *)

(** ** The rolling hash *)

Section Hash.

Lemma ToInt32_range n : - 2 ^ 31 <= ToInt32 n < 2 ^ 31.
Proof.
  unfold ToInt32. pose proof (Z.mod_pos_bound n (2 ^ 32) ltac:(lia)).
  destruct (Z.leb_spec (2 ^ 31) (n mod 2 ^ 32)); lia.
Qed.

Lemma ToInt32_mod n : ToInt32 n mod 2 ^ 32 = n mod 2 ^ 32.
Proof.
  unfold ToInt32. destruct (Z.leb_spec (2 ^ 31) (n mod 2 ^ 32)).
  - replace (n mod 2 ^ 32 - 2 ^ 32) with (n mod 2 ^ 32 + (-1) * 2 ^ 32) by lia.
    rewrite Z_mod_plus_full. apply Zmod_mod.
  - apply Zmod_mod.
Qed.

Lemma ToInt32_congr a b : a mod 2 ^ 32 = b mod 2 ^ 32 → ToInt32 a = ToInt32 b.
Proof. unfold ToInt32. by intros ->. Qed.

Lemma ToInt32_idemp n : ToInt32 (ToInt32 n) = ToInt32 n.
Proof. apply ToInt32_congr, ToInt32_mod. Qed.

Lemma js_and_diag a : js_and a a = ToInt32 a.
Proof. unfold js_and. rewrite Z.land_diag. apply ToInt32_idemp. Qed.

(** The shift-and-subtract of the source is multiplication by 31, the
    whole turn wrapping to 32 bits. *)
Lemma hash_step_31 hash char : hash_step hash char = ToInt32 (hash * 31 + char).
Proof.
  unfold hash_step. rewrite js_and_diag. apply ToInt32_congr.
  unfold js_shl. change (5 mod 32) with 5.
  rewrite Z.shiftl_mul_pow2 by lia.
  rewrite <- Zplus_mod_idemp_l, <- Zminus_mod_idemp_l, ToInt32_mod.
  rewrite <- (Zmult_mod_idemp_l (ToInt32 hash)), ToInt32_mod.
  rewrite Zmult_mod_idemp_l, Zminus_mod_idemp_l, Zplus_mod_idemp_l.
  f_equal. lia.
Qed.

Lemma fold_left_ext_eq {A B} (f g : A → B → A) (l : list B) (a : A) :
  (∀ x y, f x y = g x y) → fold_left f l a = fold_left g l a.
Proof.
  intros E. revert a. induction l as [|y l IH]; intros a; simpl; [done|].
  by rewrite E, IH.
Qed.

End Hash.

(** The loop is the hash of Java's [String.hashCode]: 99162322 on "hello". *)
Example hash_loop_hello : hash_loop (str "hello") = 99162322.
Proof. reflexivity. Qed.

(** A wrap below zero, printed through its absolute value, and a code unit
    above 255. *)
Example hash_loop_wraps :
  hash_loop (str "fingerprint") = -1375934236
  ∧ hashHex (str "fingerprint") = str "5203171c"
  ∧ hashHex (str "1.2.3.4||" ++ [8364]) = str "74a2f854".
Proof. by vm_compute. Qed.

Section Identity.

Lemma hash_loop_spec s : hash_loop s = spec_rolling_hash s.
Proof.
  unfold hash_loop, spec_rolling_hash.
  apply fold_left_ext_eq. intros hash char. apply hash_step_31.
Qed.

Lemma join_elem_or_unknown v :
  join_elem (js_or v (JStr (str "unknown"))) = or_unknown v.
Proof.
  unfold js_or, or_unknown. destruct (truthy v) eqn:E; [|done].
  by destruct v.
Qed.

Lemma js_or_audio data :
  js_or (js_or (get data "audioSignatureRaw") (get data "audioSignature"))
        (JStr (str "unknown"))
  = js_or (audio_input data) (JStr (str "unknown")).
Proof. done. Qed.

Lemma join_four sep a b c d :
  join sep [a; b; c; d]
  = join_elem a ++ sep ++ join_elem b ++ sep ++ join_elem c ++ sep
    ++ join_elem d.
Proof.
  unfold join. rewrite !fmap_cons, fmap_nil. simpl concat.
  by rewrite app_nil_r, <- !(assoc_L (++)).
Qed.

Lemma generateVisitorID_unfold data :
  generateVisitorID data
  = spec_VisitorID (get data "ip") (audio_input data)
                   (get data "userAgent") (get data "platform").
Proof.
  unfold generateVisitorID, spec_VisitorID, hashHex, separator.
  rewrite hash_loop_spec, js_or_audio, join_four.
  by rewrite !join_elem_or_unknown.
Qed.

End Identity.



(** ** The client's fallback hash against the server's *)

Lemma padStart_zeros len s :
  ∃ zeros, padStart len (str "0") s = zeros ++ s ∧ Forall (λ c, c = 48) zeros.
Proof.
  unfold padStart. eexists. split; [reflexivity|].
  apply Forall_take.
  generalize (len - length s)%nat at 1 as k. intros k.
  induction k as [|k IH]; simpl; [constructor|].
  change (str "0") with [48]. simpl. by constructor.
Qed.

(** C3, as the code has it.  The client's fallback runs the same loop as the
    server and prints the same absolute value in hexadecimal, then pads it
    on the left with the character 0 to sixteen characters: its output is
    the server's hash-step output behind a run of zeros. *)
Theorem simpleHash_is_padded_hashHex (s : jsstring) :
  simpleHash s = padStart 16 (str "0") (hashHex s)
  ∧ ∃ zeros, simpleHash s = zeros ++ hashHex s ∧ Forall (λ c, c = 48) zeros.
Proof.
  assert (simpleHash s = padStart 16 (str "0") (hashHex s)) as E by reflexivity.
  split; [exact E|]. rewrite E. apply padStart_zeros.
Qed.

(** C3 as stated fails: on "hello" the client prints 0000000005e918d2 and
    the server's hash step 5e918d2. *)
Lemma simpleHash_differs_from_hashHex :
  simpleHash (str "hello") = str "0000000005e918d2"
  ∧ hashHex (str "hello") = str "5e918d2"
  ∧ simpleHash (str "hello") ≠ hashHex (str "hello").
Proof. split; [|split]; [by vm_compute..|]. vm_compute. discriminate. Qed.

(** ** The geolocation resolver *)

Lemma tertiary_returns_sentinels net data :
  tertiary net = Returns data → sentinel_record data.
Proof.
  unfold tertiary, mbind, outcome_bind, throw_if, read.
  destruct (ipify_org net) as [r3|]; [|done].
  destruct (ok r3); simpl; [|done].
  destruct (json r3) as [[data3|]|]; [|done..].
  destruct (truthy (get data3 "ip")) eqn:Hip; simpl; [|done].
  intros [= <-]. repeat split; try exact Hip; by vm_compute.
Qed.

(** C4, as the code has it.  [fetchIPData] returns the record of the first
    tier that succeeds, the last tier's being the sentinel record with the
    address; when the three tiers fail, the failure of the last one is
    thrown to the caller. *)
Theorem fetchIPData_outcome (net : Providers) :
  match fetchIPData net with
  | Returns data =>
      primary net = Returns data
      ∨ (throws (primary net) ∧ secondary net = Returns data)
      ∨ (throws (primary net) ∧ throws (secondary net)
         ∧ tertiary net = Returns data ∧ sentinel_record data)
  | Throws e =>
      throws (primary net) ∧ throws (secondary net) ∧ tertiary net = Throws e
  end.
Proof.
  unfold fetchIPData, try_catch, throws.
  destruct (primary net) as [d1|e1]; [by left|].
  destruct (secondary net) as [d2|e2]; [right; left; eauto|].
  destruct (tertiary net) as [d3|e3] eqn:H3.
  - right; right. eauto 10 using tertiary_returns_sentinels.
  - eauto 10.
Qed.

(** C4 as stated fails: with no provider reachable the rejection of the last
    request leaves [fetchIPData]. *)
Lemma fetchIPData_throws_offline :
  fetchIPData Sample.offline = Throws FetchRejected.
Proof. reflexivity. Qed.

(** The worst case that returns: the first two tiers fail, the third gives
    the address, and the record carries it among sentinels. *)
Example fetchIPData_last_tier :
  fetchIPData Sample.last_tier_only
  = Returns (object
      [ ("ip", JStr (str "203.0.113.7"));
        ("city", JStr (str "N/D"));
        ("region", JStr (str "N/D"));
        ("country_code", JStr (str "N/D"));
        ("country_name", JStr (str "N/D"));
        ("timezone", JNull);
        ("utc_offset", JNull);
        ("org", JStr (str "N/D")) ]).
Proof. by vm_compute. Qed.

(** ** The ingestion step *)

Section Ingestion.

(** What one POST with a body does, without the fields that are copied
    through. *)
Lemma track_ok st req data :
  body req = Some data →
  let id := generateVisitorID data in
  let lastSession := visitors st !! id ≫= (λ v, last (Visitor.sessions v)) in
  ∃ s v',
    track st req
    = ({| visitors := <[id := v']> (visitors st);
          sessions := sessions st ++ [s] |}, Track200 s)
    ∧ Session.visitorID s = id
    ∧ Session.isReturning s = bool_decide (is_Some (visitors st !! id))
    ∧ Changes.mk (Session.locationChanged s) (Session.deviceChanged s)
                 (Session.screenChanged s) (Session.ipChanged s)
      = detectChanges lastSession data
    ∧ Session.city s = get data "city"
    ∧ Session.audioSignature s = get data "audioSignature"
    ∧ Session.screen s = get data "screen"
    ∧ Session.clientIP s = get data "ip"
    ∧ match visitors st !! id with
      | Some v =>
          Visitor.visits v' = Visitor.visits v + 1
          ∧ Visitor.sessions v' = Visitor.sessions v ++ [s]
      | None => Visitor.visits v' = 1 ∧ Visitor.sessions v' = [s]
      end.
Proof.
  intros Hbody id lastSession. unfold track. rewrite Hbody.
  fold id. fold lastSession.
  destruct (visitors st !! id) as [v|] eqn:Hv;
    (eexists _, _; split; [reflexivity|]); simpl;
    by destruct (detectChanges lastSession data).
Qed.

Lemma track_without_body st req :
  body req = None → track st req = (st, Track500).
Proof. unfold track. by intros ->. Qed.


Lemma run_cons st op ops :
  run st (op :: ops)
  = ((run (handle st op).1 ops).1, (handle st op).2 :: (run (handle st op).1 ops).2).
Proof.
  simpl. destruct (handle st op) as [st' r]. simpl.
  by destruct (run st' ops).
Qed.

(** An invariant of every request is an invariant of every run. *)
Lemma run_invariant (P : Store → Prop) :
  (∀ st op, P st → P (handle st op).1) →
  ∀ ops st, P st → P (run st ops).1.
Proof.
  intros Hstep ops. induction ops as [|op ops IH]; intros st Hst; [done|].
  rewrite run_cons. simpl. by apply IH, Hstep.
Qed.



End Ingestion.


(** Two ingestions succeed, one request has no body, two are queries: the
    log holds two records. *)
Example log_length_mixed_run :
  let ops := [ PostTrack (Sample.post Sample.A_lisbon);
               PostTrack Sample.post_without_body;
               GetSessions JUndefined;
               GetStats;
               PostTrack (Sample.post Sample.B_lisbon) ] in
  is_ingested <$> (run emptyStore ops).2 = [true; false; false; false; true]
  ∧ length (sessions (run emptyStore ops).1) = 2%nat.
Proof. by vm_compute. Qed.

(** ** Visit counters and session lists *)

Section Aggregates.

Lemma counters_agree_empty : counters_agree emptyStore.
Proof. intros id v. simpl. by rewrite lookup_empty. Qed.

Lemma counters_agree_handle st op :
  counters_agree st → counters_agree (handle st op).1.
Proof.
  intros Hst. destruct op as [req| |]; simpl; [|done..].
  destruct (body req) as [data|] eqn:Hbody.
  - destruct (track_ok st req data Hbody) as (s & v' & -> & _ & _ & _ & _ & _ & _ & _ & Hv').
    unfold counters_agree. simpl.
    intros id v [[<- <-]|[_ Hv]]%lookup_insert_Some; [|by eapply Hst].
    destruct (visitors st !! generateVisitorID data) as [v0|] eqn:Hv0.
    + destruct Hv' as [-> ->]. rewrite (Hst _ _ Hv0), length_app. simpl. lia.
    + by destruct Hv' as [-> ->].
  - by rewrite (track_without_body st req Hbody).
Qed.






(** The one record of a successful ingestion goes to the end of the log
    and to the end of its visitor's list, and to no other list. *)
Lemma track_appends_to_both st req s :
  (track st req).2 = Track200 s →
  sessions (track st req).1 = sessions st ++ [s]
  ∧ sessions_of (track st req).1 (Session.visitorID s)
    = sessions_of st (Session.visitorID s) ++ [s]
  ∧ ∀ id, id ≠ Session.visitorID s →
          sessions_of (track st req).1 id = sessions_of st id.
Proof.
  destruct (body req) as [data|] eqn:Hbody.
  - destruct (track_ok st req data Hbody) as (s' & v' & -> & Hid & _ & _ & _ & _ & _ & _ & Hv').
    simpl. intros [= <-]. rewrite Hid. unfold sessions_of. simpl.
    split; [done|]. split.
    + rewrite lookup_insert_eq. simpl.
      by destruct (visitors st !! generateVisitorID data); destruct Hv' as [_ ->].
    + intros id Hne. by rewrite lookup_insert_ne.
  - by rewrite (track_without_body st req Hbody).
Qed.

End Aggregates.

(** C8.  After every run from the empty store, each aggregate's visit
    counter is the length of its session list; an ingestion for an unknown
    identifier creates the aggregate with counter 1 and the one record, and
    an ingestion for a known identifier adds one to the counter and the one
    record to the end of the list. *)
Theorem visits_is_sessions_length (ops : list Op) :
  let st := (run emptyStore ops).1 in
  (∀ id v, visitors st !! id = Some v →
           Visitor.visits v = Z.of_nat (length (Visitor.sessions v)))
  ∧ ∀ req data, body req = Some data →
      let id := generateVisitorID data in
      ∃ s v',
        (track st req).2 = Track200 s
        ∧ visitors (track st req).1 !! id = Some v'
        ∧ match visitors st !! id with
          | Some v =>
              Visitor.visits v' = Visitor.visits v + 1
              ∧ Visitor.sessions v' = Visitor.sessions v ++ [s]
          | None => Visitor.visits v' = 1 ∧ Visitor.sessions v' = [s]
          end.
Proof.
  intros st. split.
  - apply (run_invariant counters_agree counters_agree_handle),
      counters_agree_empty.
  - intros req data Hbody id.
    destruct (track_ok st req data Hbody) as (s & v' & -> & _ & _ & _ & _ & _ & _ & _ & Hv').
    exists s, v'. simpl. by rewrite lookup_insert_eq.
Qed.

(** The witness of C8: after A, A, B the aggregate of A counts two visits
    and holds two records. *)
Lemma visits_is_sessions_length_witness :
  ∃ v, visitors (run emptyStore Sample.A_twice_B_once).1 !! Sample.id_A = Some v
       ∧ Visitor.visits v = 2
       ∧ Visitor.visits v = Z.of_nat (length (Visitor.sessions v)).
Proof.
  eexists. split; [vm_compute; reflexivity|]. split; [vm_compute; reflexivity|].
  apply (proj1 (visits_is_sessions_length Sample.A_twice_B_once) Sample.id_A).
  vm_compute; reflexivity.
Defined.



(** ** Change detection along the log *)

Section Diff.




Lemma lists_follow_log_handle st op :
  lists_follow_log st → lists_follow_log (handle st op).1.
Proof.
  intros Hst. destruct op as [req| |]; simpl; [|done..].
  destruct (body req) as [data|] eqn:Hbody;
    [|by rewrite (track_without_body st req Hbody)].
  pose proof (track_appends_to_both st req) as Happ.
  destruct (track_ok st req data Hbody) as (s & v' & Htrack & _).
  rewrite Htrack in Happ |- *. simpl in *.
  destruct (Happ s eq_refl) as (_ & Hsame & Hother).
  intros id. simpl. rewrite filter_app, <- Hst.
  destruct (decide (id = Session.visitorID s)) as [->|Hne].
  - rewrite Hsame. by rewrite filter_cons_True.
  - rewrite Hother by done. rewrite filter_cons_False by congruence.
    by rewrite filter_nil, app_nil_r.
Qed.



Lemma diff_invariant_empty :
  lists_follow_log emptyStore ∧ flags_follow_log (sessions emptyStore).
Proof.
  split.
  - intros id. unfold sessions_of. simpl. by rewrite lookup_empty.
  - intros [|] ? ? ?; simplify_eq/=.
Qed.

End Diff.




(** ** Recent sessions *)

Example parseInt_samples :
  parseInt (JStr (str "50")) = Some 50
  ∧ parseInt (JStr (str "  12abc")) = Some 12
  ∧ parseInt (JStr (str "-0x1f")) = Some (-31)
  ∧ parseInt (JStr (str "0")) = Some 0
  ∧ parseInt (JStr (str "abc")) = None
  ∧ parseInt JUndefined = None.
Proof. by vm_compute. Qed.

Example slice_from_samples :
  slice_from (-2) [1; 2; 3; 4; 5] = [4; 5]
  ∧ slice_from (-7) [1; 2; 3; 4; 5] = [1; 2; 3; 4; 5]
  ∧ slice_from 2 [1; 2; 3; 4; 5] = [3; 4; 5].
Proof. by vm_compute. Qed.

Section Recent.

Lemma slice_from_last {A} (N : Z) (l : list A) :
  1 <= N →
  reverse (slice_from (- N) l) = take (Z.to_nat N) (reverse l).
Proof.
  intros HN. unfold slice_from.
  destruct (Z.ltb_spec (- N) 0) as [_|?]; [|lia].
  rewrite reverse_drop.
  destruct (Z.le_ge_cases N (Z.of_nat (length l))) as [Hle|Hge].
  - f_equal. lia.
  - rewrite Z.max_r, Nat.sub_0_r by lia.
    rewrite !take_ge; [done|rewrite length_reverse; lia..].
Qed.

Lemma limit_of_default query :
  query = JUndefined ∨ parseInt query = None ∨ parseInt query = Some 0 →
  limit_of query = 50.
Proof. unfold limit_of. by intros [->|[->| ->]]. Qed.

Lemma limit_of_positive query N :
  parseInt query = Some N → 1 <= N → limit_of query = N.
Proof.
  unfold limit_of. intros -> HN.
  destruct (Z.eqb_spec N 0); [lia|done].
Qed.

End Recent.

(** C6, as the code has it.  When the limit parameter parses to an integer
    N of at least 1, the reply holds the min(N, M) latest records of the M
    in the log, the most recent first; without the parameter it holds the
    latest 50. *)
Theorem getSessions_latest_first (st : Store) (query : jsval) (N : Z) :
  parseInt query = Some N →
  1 <= N →
  recentSessions (getSessions st query)
  = take (Z.to_nat N) (reverse (sessions st))
  ∧ Z.of_nat (length (recentSessions (getSessions st query)))
    = Z.min N (Z.of_nat (length (sessions st)))
  ∧ recentSessions (getSessions st JUndefined)
    = take 50 (reverse (sessions st)).
Proof.
  intros Hparse HN.
  assert (recentSessions (getSessions st query)
          = take (Z.to_nat N) (reverse (sessions st))) as E.
  { unfold getSessions. simpl.
    by rewrite (limit_of_positive query N), slice_from_last. }
  split; [exact E|]. split.
  - rewrite E, length_take, length_reverse. lia.
  - unfold getSessions. simpl.
    rewrite (limit_of_default JUndefined) by auto.
    by rewrite slice_from_last.
Qed.

(** The witness of C6: limit=2 on the log of A, A, B returns B's record and
    then A's second. *)
Lemma getSessions_latest_first_witness :
  let st := (run emptyStore Sample.A_twice_B_once).1 in
  recentSessions (getSessions st (JStr (str "2")))
  = take 2 (reverse (sessions st))
  ∧ Z.of_nat (length (recentSessions (getSessions st (JStr (str "2")))))
    = Z.min 2 (Z.of_nat (length (sessions st)))
  ∧ recentSessions (getSessions st JUndefined) = take 50 (reverse (sessions st)).
Proof.
  intros st.
  apply (getSessions_latest_first st (JStr (str "2")) 2); [reflexivity|lia].
Defined.

(** C6 as stated fails at N = 0: limit=0 on a log of one record returns that
    record, not min(0, 1) = 0 records. *)
Lemma getSessions_limit_zero_returns_records :
  parseInt (JStr (str "0")) = Some 0
  ∧ length (sessions (run emptyStore [PostTrack (Sample.post Sample.A_lisbon)]).1)
    = 1%nat
  ∧ Z.of_nat (length (recentSessions
       (getSessions (run emptyStore [PostTrack (Sample.post Sample.A_lisbon)]).1
                    (JStr (str "0")))))
    ≠ Z.min 0 1.
Proof. split; [|split]; [by vm_compute..|]. vm_compute. discriminate. Qed.

(** C10.  A limit parameter that is absent, that does not parse as an
    integer, or that parses to 0 gets the reply of limit=50. *)
Theorem getSessions_default_limit (st : Store) (query : jsval) :
  query = JUndefined ∨ parseInt query = None ∨ parseInt query = Some 0 →
  getSessions st query = getSessions st (JStr (str "50")).
Proof.
  intros Hquery. unfold getSessions.
  rewrite (limit_of_default query Hquery).
  by change (limit_of (JStr (str "50"))) with 50.
Qed.

(** The witness of C10: no parameter, limit=abc and limit=0, on the log of
    A, A, B. *)
Lemma getSessions_default_limit_witness :
  let st := (run emptyStore Sample.A_twice_B_once).1 in
  getSessions st JUndefined = getSessions st (JStr (str "50"))
  ∧ getSessions st (JStr (str "abc")) = getSessions st (JStr (str "50"))
  ∧ getSessions st (JStr (str "0")) = getSessions st (JStr (str "50")).
Proof.
  intros st. split; [|split]; apply (getSessions_default_limit st).
  - left. reflexivity.
  - right; left. reflexivity.
  - right; right. reflexivity.
Defined.

(** ** Statistics *)

(** One of two, one of three, and three of two thousand, where the double
    nearest to 0.15 lies below it. *)
Example return_rate_samples :
  return_rate 1 2 = Some (str "50.0%")
  ∧ return_rate 1 3 = Some (str "33.3%")
  ∧ return_rate 2 3 = Some (str "66.7%")
  ∧ return_rate 3 2000 = Some (str "0.1%")
  ∧ return_rate 0 4 = Some (str "0.0%")
  ∧ return_rate 0 0 = Some (str "0%").
Proof. by vm_compute. Qed.

Section Statistics.

Lemma lists_nonempty_handle st op :
  lists_nonempty st → lists_nonempty (handle st op).1.
Proof.
  intros Hst. destruct op as [req| |]; simpl; [|done..].
  destruct (body req) as [data|] eqn:Hbody;
    [|by rewrite (track_without_body st req Hbody)].
  destruct (track_ok st req data Hbody) as (s & v' & -> & _ & _ & _ & _ & _ & _ & _ & Hv').
  unfold lists_nonempty. simpl.
  intros id v [[<- <-]|[_ Hv]]%lookup_insert_Some; [|by eapply Hst].
  destruct (visitors st !! generateVisitorID data) as [v0|];
    destruct Hv' as [_ ->]; [|done].
  by destruct (Visitor.sessions v0).
Qed.

Lemma store_invariant_run ops : store_invariant (run emptyStore ops).1.
Proof.
  apply run_invariant.
  - intros st op (Hc & Hl & Hn). split; [|split].
    + by apply counters_agree_handle.
    + by apply lists_follow_log_handle.
    + by apply lists_nonempty_handle.
  - split; [apply counters_agree_empty|].
    split; [apply diff_invariant_empty|].
    intros id v. simpl. by rewrite lookup_empty.
Qed.

(** The fold of the source counts the aggregates visited more than once. *)
Lemma count_returning_filter vs :
  count_returning vs
  = Z.of_nat (length (filter (λ kv, 1 < Visitor.visits kv.2) (map_to_list vs))).
Proof.
  unfold count_returning. rewrite map_fold_foldr.
  induction (map_to_list vs) as [|[k v] l IH]; [done|].
  simpl. rewrite filter_cons, IH. simpl.
  destruct (Z.ltb_spec 1 (Visitor.visits v)); case_decide; simpl; lia.
Qed.







End Statistics.




(* ===================================================================== *)
(** * Further properties *)
(* ===================================================================== *)

(** ** The shape of hexadecimal output *)

Section HexShape.

Lemma length_str s : length (str s) = String.length s.
Proof.
  unfold str. rewrite length_fmap.
  induction s as [|a s IH]; simpl; [done|by rewrite IH].
Qed.

Lemma string_of_uint_length d :
  String.length (HexadecimalString.NilEmpty.string_of_uint d)
  = Hexadecimal.nb_digits d.
Proof. induction d; simpl; by rewrite ?IHd. Qed.

Lemma NilZero_string_of_uint_length d :
  d ≠ Hexadecimal.Nil →
  String.length (HexadecimalString.NilZero.string_of_uint d)
  = Hexadecimal.nb_digits d.
Proof. destruct d; try done; intros _; apply string_of_uint_length. Qed.

Lemma string_of_uint_lower_hex d :
  Forall (λ c, is_lower_hex c = true)
         (str (HexadecimalString.NilEmpty.string_of_uint d)).
Proof.
  induction d; simpl; [constructor|..]; (constructor; [by vm_compute|done]).
Qed.

Lemma toString16_lower_hex n :
  Forall (λ c, is_lower_hex c = true) (toString16 n).
Proof.
  unfold toString16, HexadecimalString.NilZero.string_of_uint.
  destruct (N.to_hex_uint (Z.to_N n)) eqn:E;
    try (rewrite <- E; apply string_of_uint_lower_hex).
  by repeat constructor.
Qed.

Lemma N_below_16 (k : N) :
  (k < 16)%N →
  (k = 0 ∨ k = 1 ∨ k = 2 ∨ k = 3 ∨ k = 4 ∨ k = 5 ∨ k = 6 ∨ k = 7 ∨ k = 8
   ∨ k = 9 ∨ k = 10 ∨ k = 11 ∨ k = 12 ∨ k = 13 ∨ k = 14 ∨ k = 15)%N.
Proof. lia. Qed.

Lemma of_lu_hex_digit k d :
  (k < 16)%N →
  HexadecimalPos.Unsigned.of_lu (hex_digit k d)
  = (k + 16 * HexadecimalPos.Unsigned.of_lu d)%N.
Proof.
  intros Hk%N_below_16.
  repeat (destruct Hk as [->|Hk]; [reflexivity|]). by subst.
Qed.

Lemma of_lu_hex_lu fuel n :
  (n < 16 ^ N.of_nat fuel)%N →
  HexadecimalPos.Unsigned.of_lu (hex_lu fuel n) = n.
Proof.
  revert n. induction fuel as [|fuel IH]; intros n Hn.
  - simpl in *. lia.
  - cbn [hex_lu]. destruct (N.eqb_spec n 0) as [->|Hn0]; [done|].
    rewrite of_lu_hex_digit by (apply N.mod_lt; lia).
    rewrite IH.
    + pose proof (N.div_mod n 16 ltac:(lia)). lia.
    + apply N.Div0.div_lt_upper_bound.
      rewrite Nat2N.inj_succ, N.pow_succ_r' in Hn. lia.
Qed.

Lemma nb_digits_hex_digit k d :
  (k < 16)%N →
  Hexadecimal.nb_digits (hex_digit k d) = S (Hexadecimal.nb_digits d).
Proof.
  intros Hk%N_below_16.
  repeat (destruct Hk as [->|Hk]; [reflexivity|]). by subst.
Qed.

Lemma nb_digits_hex_lu fuel n :
  (Hexadecimal.nb_digits (hex_lu fuel n) ≤ fuel)%nat.
Proof.
  revert n. induction fuel as [|fuel IH]; intros n; [done|].
  cbn [hex_lu]. destruct (n =? 0)%N; [simpl; lia|].
  rewrite nb_digits_hex_digit by (apply N.mod_lt; lia).
  specialize (IH (n / 16)%N). lia.
Qed.

(** A number below [16^k] prints in at most [k] hexadecimal digits. *)
Lemma to_hex_uint_digits k n :
  (1 ≤ k)%nat → (n < 16 ^ N.of_nat k)%N →
  (Hexadecimal.nb_digits (N.to_hex_uint n) ≤ k)%nat.
Proof.
  intros Hk Hn.
  rewrite <- (of_lu_hex_lu k n Hn) at 1.
  rewrite <- HexadecimalPos.Unsigned.of_lu_rev.
  change (Pos.of_hex_uint ?d) with (N.of_hex_uint d).
  rewrite HexadecimalN.Unsigned.to_of.
  pose proof (nb_digits_hex_lu k n) as Hlen.
  rewrite <- HexadecimalFacts.nb_digits_rev in Hlen.
  destruct (Hexadecimal.rev (hex_lu k n)) eqn:E; [simpl; lia|..];
    (etrans; [apply HexadecimalFacts.nb_digits_unorm; discriminate|exact Hlen]).
Qed.

Lemma toString16_length k n :
  (1 ≤ k)%nat → 0 <= n < 16 ^ Z.of_nat k →
  (1 ≤ length (toString16 n) ≤ k)%nat.
Proof.
  intros Hk Hn. unfold toString16. rewrite length_str.
  assert (Z.to_N n < 16 ^ N.of_nat k)%N as Hn'.
  { apply N2Z.inj_lt. rewrite N2Z.inj_pow, Z2N.id, nat_N_Z by lia. simpl. lia. }
  pose proof (to_hex_uint_digits k (Z.to_N n) Hk Hn') as Hd.
  destruct (N.to_hex_uint (Z.to_N n)) eqn:E; [simpl; lia|..];
    rewrite <- E, NilZero_string_of_uint_length by (rewrite E; done);
    rewrite E in *; simpl in *; lia.
Qed.

End HexShape.

Section Shapes.

Lemma hash_loop_range s : - 2 ^ 31 <= hash_loop s < 2 ^ 31.
Proof.
  unfold hash_loop. induction s as [|c s IH] using rev_ind; [simpl; lia|].
  rewrite fold_left_app. simpl. rewrite hash_step_31. apply ToInt32_range.
Qed.

Lemma hashHex_shape s :
  (1 ≤ length (hashHex s) ≤ 8)%nat
  ∧ Forall (λ c, is_lower_hex c = true) (hashHex s).
Proof.
  split; [|apply toString16_lower_hex].
  apply toString16_length; [lia|].
  pose proof (hash_loop_range s). change (16 ^ Z.of_nat 8) with (2 ^ 32). lia.
Qed.

Lemma padStart_zero_length len s :
  length (padStart len (str "0") s) = (len `max` length s)%nat.
Proof.
  unfold padStart. rewrite length_app, length_take.
  assert (∀ k, length (concat (replicate k (str "0"))) = k) as ->.
  { induction k as [|k IH]; [done|]. simpl. by rewrite IH. }
  lia.
Qed.

Lemma padStart_zero_Forall (P : Z → Prop) len s :
  P 48 → Forall P s → Forall P (padStart len (str "0") s).
Proof.
  intros H0 Hs. destruct (padStart_zeros len s) as (zeros & -> & Hz).
  apply Forall_app. split; [|done].
  eapply Forall_impl; [exact Hz|]. by intros c ->.
Qed.

Lemma toUpperCase_hex s :
  Forall (λ c, is_lower_hex c = true) s →
  Forall (λ c, is_upper_hex c = true) (toUpperCase s).
Proof.
  unfold toUpperCase. intros Hs. apply Forall_fmap.
  eapply Forall_impl; [exact Hs|]. intros c Hc. simpl.
  unfold is_lower_hex, is_upper_hex in *.
  destruct (Z.leb_spec 97 c), (Z.leb_spec c 122); simpl;
    repeat match goal with
           | |- context [?a <=? ?b] => destruct (Z.leb_spec a b)
           | H : context [?a <=? ?b] |- _ => destruct (Z.leb_spec a b)
           end; simpl in *; try done; lia.
Qed.

Lemma js_ushr_0_range a : 0 <= js_ushr a 0 < 2 ^ 32.
Proof.
  unfold js_ushr, ToUint32. change (0 mod 32) with 0. rewrite Z.shiftr_0_r.
  apply Z.mod_pos_bound. lia.
Qed.

End Shapes.

(** X1.  The visitor identifier is between one and eight characters long,
    each a digit or a letter from a to f. *)
Theorem generateVisitorID_shape (data : jsobj) :
  (1 ≤ length (generateVisitorID data) ≤ 8)%nat
  ∧ Forall (λ c, is_lower_hex c = true) (generateVisitorID data).
Proof. apply hashHex_shape. Qed.

(** X2.  The client's fallback hash is sixteen characters long, each a digit
    or a letter from a to f, so that it is never the output of the server's
    hash step, which has at most eight. *)
Theorem simpleHash_shape (s : jsstring) :
  length (simpleHash s) = 16%nat
  ∧ Forall (λ c, is_lower_hex c = true) (simpleHash s)
  ∧ ∀ t, simpleHash s ≠ hashHex t.
Proof.
  assert (length (simpleHash s) = 16%nat) as Hlen.
  { change (simpleHash s) with (padStart 16 (str "0") (hashHex s)).
    rewrite padStart_zero_length. pose proof (hashHex_shape s). lia. }
  split; [done|]. split.
  - change (simpleHash s) with (padStart 16 (str "0") (hashHex s)).
    apply padStart_zero_Forall; [done|apply hashHex_shape].
  - intros t E. pose proof (hashHex_shape t) as [Ht _].
    rewrite <- E, Hlen in Ht. lia.
Qed.

(** ** The checksum *)

(** The check value of CRC-32 with the reflected polynomial, and the
    checksum of an audio signature. *)
Example crc32_check_value :
  crc32 (str "123456789") = str "CBF43926"
  ∧ crc32 [] = str "00000000"
  ∧ crc32 (str "35") = str "E301B3EC".
Proof. by vm_compute. Qed.

Section Checksum.

Lemma ToInt32_small z : - 2 ^ 31 <= z < 2 ^ 31 → ToInt32 z = z.
Proof.
  intros Hz. unfold ToInt32. destruct (Z.lt_ge_cases z 0) as [Hneg|Hpos].
  - assert (z mod 2 ^ 32 = z + 2 ^ 32) as ->.
    { symmetry. apply Z.mod_unique with (q := -1); lia. }
    destruct (Z.leb_spec (2 ^ 31) (z + 2 ^ 32)); lia.
  - rewrite Z.mod_small by lia.
    destruct (Z.leb_spec (2 ^ 31) z); lia.
Qed.

Lemma ToInt32_testbit n i :
  0 <= i < 32 → Z.testbit (ToInt32 n) i = Z.testbit n i.
Proof.
  intros Hi.
  rewrite <- (Z.mod_pow2_bits_low (ToInt32 n) 32 i) by lia.
  rewrite ToInt32_mod. apply Z.mod_pow2_bits_low. lia.
Qed.

Lemma testbit_255 i : 0 <= i → Z.testbit 255 i = bool_decide (i < 8).
Proof.
  intros Hi. change 255 with (Z.ones 8). case_bool_decide.
  - apply Z.ones_spec_low. lia.
  - apply Z.ones_spec_high. lia.
Qed.

Lemma land_255_range a : 0 <= Z.land a 255 < 256.
Proof.
  change 255 with (Z.ones 8). rewrite Z.land_ones by lia.
  apply Z.mod_pos_bound. lia.
Qed.

(** The index into the table is the exclusive or of the low bytes. *)
Lemma table_index crc charCode :
  js_and (js_xor crc charCode) 255
  = Z.lxor (Z.land crc 255) (Z.land charCode 255).
Proof.
  unfold js_and. rewrite (ToInt32_small 255) by lia.
  rewrite ToInt32_small by (pose proof (land_255_range (ToInt32 (js_xor crc charCode))); lia).
  apply Z.bits_inj'. intros i Hi.
  rewrite Z.land_spec, Z.lxor_spec, !Z.land_spec, testbit_255 by done.
  case_bool_decide; [|by rewrite !andb_false_r].
  rewrite !andb_true_r. unfold js_xor.
  rewrite !ToInt32_testbit, Z.lxor_spec, !ToInt32_testbit by lia. done.
Qed.

Lemma fold_left_fmap {A B C} (f : A → B → A) (g : C → B) (l : list C) (a : A) :
  fold_left f (g <$> l) a = fold_left (λ a x, f a (g x)) l a.
Proof. revert a. induction l as [|x l IH]; intros a; simpl; [done|apply IH]. Qed.

Lemma crc_loop_low_bytes s :
  crc_loop ((λ c, Z.land c 255) <$> s) = crc_loop s.
Proof.
  unfold crc_loop. rewrite fold_left_fmap. apply fold_left_ext_eq.
  intros crc c. rewrite !table_index. do 3 f_equal.
  change 255 with (Z.ones 8). rewrite !Z.land_ones by lia. apply Zmod_mod.
Qed.

Lemma length_toUpperCase s : length (toUpperCase s) = length s.
Proof. apply length_fmap. Qed.

Lemma crc32_shape s :
  length (crc32 s) = 8%nat ∧ Forall (λ c, is_upper_hex c = true) (crc32 s).
Proof.
  unfold crc32.
  set (v := js_ushr (js_xor (crc_loop s) (-1)) 0).
  pose proof (js_ushr_0_range (js_xor (crc_loop s) (-1))) as Hv. fold v in Hv.
  split.
  - rewrite padStart_zero_length, length_toUpperCase.
    pose proof (toString16_length 8 v ltac:(lia)) as Hlen.
    change (16 ^ Z.of_nat 8) with (2 ^ 32) in Hlen. lia.
  - apply padStart_zero_Forall; [done|].
    apply toUpperCase_hex, toString16_lower_hex.
Qed.

End Checksum.

(** X3.  The checksum is always eight characters, each a digit or a letter
    from A to F. *)
Theorem crc32_is_eight_upper_hex (s : jsstring) :
  length (crc32 s) = 8%nat ∧ Forall (λ c, is_upper_hex c = true) (crc32 s).
Proof. apply crc32_shape. Qed.

(** X4.  The checksum reads only the low byte of each code unit: two strings
    whose code units agree modulo 256 have the same checksum. *)
Theorem crc32_reads_low_bytes (s t : jsstring) :
  (λ c, Z.land c 255) <$> s = (λ c, Z.land c 255) <$> t →
  crc32 s = crc32 t.
Proof.
  intros E. unfold crc32.
  by rewrite <- (crc_loop_low_bytes s), <- (crc_loop_low_bytes t), E.
Qed.

(** The witness of X4: the code unit 0x0141 is read as "A" (0x41). *)
Lemma crc32_reads_low_bytes_witness :
  crc32 [321; 49] = crc32 (str "A1").
Proof. apply crc32_reads_low_bytes. reflexivity. Defined.

(** X5.  The processed signature is "N/D" exactly when the raw signature is
    one of the two failure marks; otherwise it is the eight-character
    checksum.  A body that carries the processed signature of a failed
    capture never raises deviceChanged. *)
Theorem audioCRC_sentinel (audioSig : jsstring) :
  (audioCRC_of audioSig = str "N/D"
   ↔ audioSig = str "ERROR" ∨ audioSig = str "UNSUPPORTED")
  ∧ (audioCRC_of audioSig ≠ str "N/D" → audioCRC_of audioSig = crc32 audioSig)
  ∧ ∀ lastSession data,
      get data "audioSignature" = JStr (audioCRC_of audioSig) →
      audioSig = str "ERROR" ∨ audioSig = str "UNSUPPORTED" →
      Changes.deviceChanged (detectChanges lastSession data) = false.
Proof.
  assert (audioCRC_of audioSig = str "N/D"
          ↔ audioSig = str "ERROR" ∨ audioSig = str "UNSUPPORTED") as Hiff.
  { unfold audioCRC_of, strict_neq.
    destruct (decide (audioSig = str "ERROR")) as [->|H1]; [by split; auto|].
    destruct (decide (audioSig = str "UNSUPPORTED")) as [->|H2]; [by split; auto|].
    rewrite !bool_decide_eq_true_2 by congruence. simpl. split.
    - intros E. pose proof (crc32_shape audioSig) as [Hlen _].
      rewrite E in Hlen. done.
    - by intros [?|?]. }
  split; [exact Hiff|]. split.
  - unfold audioCRC_of. by destruct (_ && _).
  - intros lastSession data Hdata Hfail. apply Hiff in Hfail.
    destruct lastSession as [lastSession|]; [|done]. simpl.
    rewrite Hdata, Hfail. unfold strict_neq at 2.
    rewrite bool_decide_eq_false_2; [apply andb_false_r|]. by intros [].
Qed.

(** ** Colliding identifiers *)

Section Collisions.

Lemma hash_loop_app a b : hash_loop (a ++ b) = fold_left hash_step b (hash_loop a).
Proof. unfold hash_loop. apply fold_left_app. Qed.

Lemma fold_hash_step_range u h :
  - 2 ^ 31 <= h < 2 ^ 31 → - 2 ^ 31 <= fold_left hash_step u h < 2 ^ 31.
Proof.
  intros Hh. induction u as [|c u IH] using rev_ind; [done|].
  rewrite fold_left_app. simpl. rewrite hash_step_31. apply ToInt32_range.
Qed.

(** From any state, the loop over [u] adds the hash of [u] to the state
    times 31 to the length of [u], modulo 2^32. *)
Lemma fold_hash_step_mod u h :
  fold_left hash_step u h mod 2 ^ 32
  = (h * 31 ^ Z.of_nat (length u) + hash_loop u) mod 2 ^ 32.
Proof.
  induction u as [|c u IH] using rev_ind.
  - simpl. f_equal. unfold hash_loop. simpl. lia.
  - rewrite hash_loop_app, fold_left_app, length_app. simpl.
    rewrite !hash_step_31, ToInt32_mod.
    rewrite <- Zplus_mod_idemp_l, <- Zmult_mod_idemp_l, IH.
    rewrite Zmult_mod_idemp_l, Zplus_mod_idemp_l.
    rewrite <- (Zplus_mod_idemp_r (ToInt32 _)), ToInt32_mod, Zplus_mod_idemp_r.
    f_equal. rewrite Nat2Z.inj_add, Z.pow_add_r by lia.
    change (31 ^ Z.of_nat 1) with 31. lia.
Qed.

Lemma int32_congr x y :
  - 2 ^ 31 <= x < 2 ^ 31 → - 2 ^ 31 <= y < 2 ^ 31 →
  x mod 2 ^ 32 = y mod 2 ^ 32 → x = y.
Proof.
  intros Hx Hy E. rewrite <- (ToInt32_small x), <- (ToInt32_small y) by done.
  by apply ToInt32_congr.
Qed.

Lemma hash_loop_context p u v q :
  length u = length v → hash_loop u = hash_loop v →
  hash_loop (p ++ u ++ q) = hash_loop (p ++ v ++ q).
Proof.
  intros Hlen Hhash. rewrite !hash_loop_app, !fold_left_app. f_equal.
  apply int32_congr; try apply fold_hash_step_range, hash_loop_range.
  by rewrite !fold_hash_step_mod, Hlen, Hhash.
Qed.

End Collisions.

(** X16.  The identifier is not unique to its inputs: two texts of the same
    length with the same hash can stand for each other anywhere inside the
    platform, and the two bodies, alike in the other three inputs, get the
    same visitor identifier. *)
Theorem generateVisitorID_collides (d1 d2 : jsobj) (p u v q : jsstring) :
  length u = length v →
  hash_loop u = hash_loop v →
  u ≠ [] →
  get d1 "ip" = get d2 "ip" →
  audio_input d1 = audio_input d2 →
  get d1 "userAgent" = get d2 "userAgent" →
  get d1 "platform" = JStr (p ++ u ++ q) →
  get d2 "platform" = JStr (p ++ v ++ q) →
  generateVisitorID d1 = generateVisitorID d2.
Proof.
  intros Hlen Hhash Hu Hip Haudio Hua Hp1 Hp2.
  assert (v ≠ []) as Hv by (intros ->; by destruct u).
  rewrite !generateVisitorID_unfold, Hp1, Hp2, Hip, Haudio, Hua.
  unfold spec_VisitorID. rewrite <- !hash_loop_spec. do 2 f_equal.
  assert (∀ w, w ≠ [] → or_unknown (JStr (p ++ w ++ q)) = p ++ w ++ q) as Hor.
  { intros w Hw. unfold or_unknown. simpl.
    rewrite bool_decide_eq_false_2; [done|].
    intros [_ [? _]%app_eq_nil]%app_eq_nil. done. }
  rewrite !Hor by done.
  assert (∀ a b c w,
            a ++ separator ++ b ++ separator ++ c ++ separator ++ p ++ w ++ q
            = (a ++ separator ++ b ++ separator ++ c ++ separator ++ p)
              ++ w ++ q) as Hshift
    by (intros; by rewrite <- !(assoc_L (++))).
  rewrite !Hshift. by apply hash_loop_context.
Qed.

(** The witness of X16: the platforms "Aa-64" and "BB-64". *)
Lemma generateVisitorID_collides_witness :
  generateVisitorID (Sample.body_of "203.0.113.7" "Aa-64" JNull JNull)
  = generateVisitorID (Sample.body_of "203.0.113.7" "BB-64" JNull JNull).
Proof.
  apply (generateVisitorID_collides _ _ [] (str "Aa") (str "BB") (str "-64"));
    by vm_compute.
Defined.

(** ** The store against its log *)

Section StoreAndLog.

(** One POST with a body, with the aggregate it writes in full. *)
Lemma track_visitor st req data :
  body req = Some data →
  let id := generateVisitorID data in
  ∃ s v',
    track st req
    = ({| visitors := <[id := v']> (visitors st);
          sessions := sessions st ++ [s] |}, Track200 s)
    ∧ v' = match visitors st !! id with
           | Some v =>
               {| Visitor.visitorID := Visitor.visitorID v;
                  Visitor.fingerprint := Visitor.fingerprint v;
                  Visitor.visits := Visitor.visits v + 1;
                  Visitor.firstSeen := Visitor.firstSeen v;
                  Visitor.lastSeen := iso_lastSeen req;
                  Visitor.sessions := Visitor.sessions v ++ [s] |}
           | None =>
               {| Visitor.visitorID := id;
                  Visitor.fingerprint := Session.fingerprint s;
                  Visitor.visits := 1;
                  Visitor.firstSeen := Session.firstSeen s;
                  Visitor.lastSeen := Session.firstSeen s;
                  Visitor.sessions := [s] |}
           end
    ∧ Session.visitorID s = id
    ∧ Session.isReturning s = bool_decide (is_Some (visitors st !! id))
    ∧ Session.userAgent s = get data "userAgent".
Proof.
  intros Hbody id. unfold track. rewrite Hbody. fold id.
  destruct (visitors st !! id) as [v|] eqn:Hv;
    (eexists _, _; split; [reflexivity|]); simpl; by rewrite ?Hv.
Qed.

Lemma each_record_snoc Q log s :
  each_record Q log → Q log s → each_record Q (log ++ [s]).
Proof.
  intros Hlog Hs pre s' post Hsplit.
  destruct post as [|x post _] using rev_ind.
  - apply app_inj_tail in Hsplit as [<- <-]. done.
  - change (pre ++ s' :: post ++ [x]) with (pre ++ (s' :: post) ++ [x]) in Hsplit.
    rewrite (assoc_L (++)) in Hsplit.
    apply app_inj_tail in Hsplit as [-> _]. by eapply Hlog.
Qed.

Lemma each_record_nil Q : each_record Q [].
Proof. intros [|] ? ? ?; simplify_eq/=. Qed.

Lemma known_iff_recorded st id :
  lists_follow_log st → lists_nonempty st →
  is_Some (visitors st !! id) ↔ records_of id (sessions st) ≠ [].
Proof.
  intros Hl Hn. unfold records_of. rewrite <- Hl. unfold sessions_of.
  destruct (visitors st !! id) as [v|] eqn:Hv; simpl.
  - split; [intros _; by eapply Hn|eauto].
  - split; [by intros [? ?]|done].
Qed.

Lemma returning_handle st op :
  store_invariant st ∧ each_record returning_marks_repeat (sessions st) →
  store_invariant (handle st op).1
  ∧ each_record returning_marks_repeat (sessions (handle st op).1).
Proof.
  intros [(Hc & Hl & Hn) Hlog].
  split.
  { split; [|split].
    - by apply counters_agree_handle.
    - by apply lists_follow_log_handle.
    - by apply lists_nonempty_handle. }
  destruct op as [req| |]; simpl; [|done..].
  destruct (body req) as [data|] eqn:Hbody;
    [|by rewrite (track_without_body st req Hbody)].
  destruct (track_visitor st req data Hbody) as (s & v' & -> & _ & Hid & Hret & _).
  simpl. apply each_record_snoc; [done|].
  unfold returning_marks_repeat. rewrite Hret, Hid, bool_decide_eq_true.
  by apply known_iff_recorded.
Qed.



Lemma records_of_elem id log :
  records_of id log ≠ [] ↔ ∃ p, p ∈ log ∧ Session.visitorID p = id.
Proof.
  unfold records_of. split.
  - destruct (filter _ log) as [|p l] eqn:E; [done|]. intros _.
    assert (p ∈ filter (λ s, Session.visitorID s = id) log) as Hp
      by (rewrite E; left).
    apply list_elem_of_filter in Hp as [? ?]. eauto.
  - intros (p & Hp & Hid) E.
    assert (p ∈ filter (λ s, Session.visitorID s = id) log) as Hp'
      by (by apply list_elem_of_filter).
    rewrite E in Hp'. by apply not_elem_of_nil in Hp'.
Qed.

End StoreAndLog.

(** X6.  In the log of any run from the empty store, a record is marked
    isReturning exactly when an earlier record has the same visitor
    identifier. *)
Theorem isReturning_marks_repeat
    (ops : list Op) (pre : list Session.t) (s : Session.t) (post : list Session.t) :
  sessions (run emptyStore ops).1 = pre ++ s :: post →
  Session.isReturning s = true
  ↔ ∃ p, p ∈ pre ∧ Session.visitorID p = Session.visitorID s.
Proof.
  intros Hlog.
  pose proof (run_invariant
    (λ st, store_invariant st ∧ each_record returning_marks_repeat (sessions st))
    returning_handle ops emptyStore) as [_ Hret].
  { split; [apply (store_invariant_run [])|apply each_record_nil]. }
  rewrite <- records_of_elem. exact (Hret pre s post Hlog).
Qed.

(** The witness of X6: in the log of A, A, B the second record is a return
    and the third is not. *)
Lemma isReturning_marks_repeat_witness :
  ∃ a1 a2 b, sessions (run emptyStore Sample.A_twice_B_once).1 = [a1; a2; b]
    ∧ Session.isReturning a2 = true ∧ Session.isReturning b = false
    ∧ (Session.isReturning a2 = true
       ↔ ∃ p, p ∈ [a1] ∧ Session.visitorID p = Session.visitorID a2).
Proof.
  eexists _, _, _. split; [vm_compute; reflexivity|].
  do 2 (split; [vm_compute; reflexivity|]).
  exact (isReturning_marks_repeat Sample.A_twice_B_once [_] _ [_] eq_refl).
Defined.


(** ** What the statistics count *)

Section Counts.

Lemma dom_visitors_log st :
  store_invariant st →
  dom (visitors st) =@{gset jsstring} list_to_set (Session.visitorID <$> sessions st).
Proof.
  intros (Hc & Hl & Hn). apply set_eq. intros id.
  rewrite elem_of_dom, elem_of_list_to_set, list_elem_of_fmap.
  rewrite known_iff_recorded, records_of_elem by done.
  split; intros (p & H1 & H2); exists p; by split.
Qed.

Lemma size_list_to_set_le (l : list jsstring) :
  (size (list_to_set l : gset jsstring) ≤ length l)%nat.
Proof.
  induction l as [|x l IH]; [done|].
  rewrite list_to_set_cons, size_union_alt, size_singleton. simpl.
  assert (list_to_set l ∖ {[x]} ⊆ (list_to_set l : gset jsstring)) as Hsub.
  { intros y Hy. by apply elem_of_difference in Hy as [? _]. }
  apply subseteq_size in Hsub. lia.
Qed.


End Counts.

(** X8.  Whenever /api/stats answers after a run from the empty store,
    uniqueVisitors is the number of distinct visitor identifiers in the log,
    totalSessions the length of the log, and
    0 <= returningVisitors <= uniqueVisitors <= totalSessions. *)
Theorem stats_counts_follow_log (ops : list Op) (stats : Stats) :
  let st := (run emptyStore ops).1 in
  getStats st = Some stats →
  uniqueVisitors stats
  = Z.of_nat (size (list_to_set (Session.visitorID <$> sessions st) : gset jsstring))
  ∧ totalSessions stats = Z.of_nat (length (sessions st))
  ∧ 0 <= returningVisitors stats <= uniqueVisitors stats
  ∧ uniqueVisitors stats <= totalSessions stats.
Proof.
  intros st Hstats. unfold getStats in Hstats.
  destruct (forallb _ _); [|done]. injection Hstats as <-. simpl.
  pose proof (dom_visitors_log st (store_invariant_run ops)) as Hdom.
  assert (size (visitors st)
          = size (list_to_set (Session.visitorID <$> sessions st) : gset jsstring))
    as Hsize by (by rewrite <- Hdom, size_dom).
  split; [by rewrite Hsize|]. split; [done|]. split.
  - rewrite count_returning_filter.
    pose proof (length_filter (λ kv : jsstring * Visitor.t, 1 < Visitor.visits kv.2)
                  (map_to_list (visitors st))) as Hle.
    rewrite length_map_to_list in Hle. lia.
  - rewrite Hsize.
    pose proof (size_list_to_set_le (Session.visitorID <$> sessions st)) as Hle.
    rewrite length_fmap in Hle. lia.
Qed.

(** The witness of X8: A, A, B. *)
Lemma stats_counts_follow_log_witness :
  ∃ stats, getStats (run emptyStore Sample.A_twice_B_once).1 = Some stats
    ∧ uniqueVisitors stats = 2 ∧ totalSessions stats = 3
    ∧ 0 <= returningVisitors stats <= uniqueVisitors stats.
Proof.
  eexists. split; [vm_compute; reflexivity|].
  do 2 (split; [vm_compute; reflexivity|]).
  refine (proj1 (proj2 (proj2
    (stats_counts_follow_log Sample.A_twice_B_once _ _)))).
  vm_compute; reflexivity.
Defined.



(** ** Recent sessions, any limit *)

(** X10.  Whatever the limit parameter, the reply reports the length of the
    whole log and lists a final stretch of the log, newest record first; a
    limit that parses to a negative integer -k lists all but the k oldest
    records. *)
Theorem getSessions_negative_limit (st : Store) (query : jsval) (N : Z) :
  parseInt query = Some N →
  N <= -1 →
  recentSessions (getSessions st query)
  = reverse (drop (Z.to_nat (- N)) (sessions st))
  ∧ sessions_total (getSessions st query) = Z.of_nat (length (sessions st))
  ∧ ∀ query', ∃ k, recentSessions (getSessions st query')
                  = reverse (drop k (sessions st)).
Proof.
  intros Hparse HN. split; [|split; [done|]].
  - unfold getSessions, limit_of. simpl. rewrite Hparse.
    destruct (Z.eqb_spec N 0); [lia|]. unfold slice_from.
    destruct (Z.ltb_spec (- N) 0); [lia|]. f_equal.
    destruct (Z.le_ge_cases (- N) (Z.of_nat (length (sessions st)))).
    + by rewrite Z.min_l.
    + rewrite Z.min_r by lia. rewrite Nat2Z.id.
      by rewrite !drop_ge by lia.
  - intros query'. eexists. reflexivity.
Qed.

(** The witness of X10: limit=-1 on the log of A, A, B drops the first
    record. *)
Lemma getSessions_negative_limit_witness :
  let st := (run emptyStore Sample.A_twice_B_once).1 in
  recentSessions (getSessions st (JStr (str "-1")))
  = reverse (drop 1 (sessions st))
  ∧ sessions_total (getSessions st (JStr (str "-1")))
    = Z.of_nat (length (sessions st))
  ∧ ∀ query', ∃ k, recentSessions (getSessions st query')
                  = reverse (drop k (sessions st)).
Proof.
  intros st.
  apply (getSessions_negative_limit st (JStr (str "-1")) (-1)); [reflexivity|lia].
Defined.

(** ** The browser table *)

Section Browsers.






End Browsers.

(** The token that occurs first decides: a Chrome user agent, which also
    names Safari, counts as Chrome, and so does one of the current Edge,
    which writes "Edg". *)
Example browser_of_samples :
  browser_of Sample2.chrome_ua = str "Chrome"
  ∧ browser_of (Sample2.chrome_ua ++ str " Edg/120.0") = str "Chrome"
  ∧ browser_of Sample2.ipad_ua = str "Safari"
  ∧ browser_of (str "curl/8.4.0") = str "Other".
Proof. by vm_compute. Qed.


(** ** The limit as decimal text *)

Section DecimalText.











End DecimalText.



(** ** The server-detected address *)

Section Detected.

Lemma split_first_app first rest :
  comma ∉ first → split_first comma (first ++ comma :: rest) = first.
Proof.
  induction first as [|c first IH]; intros Hfirst; simpl.
  - done.
  - apply not_elem_of_cons in Hfirst as [Hc Hfirst].
    destruct (Z.eqb_spec c comma); [done|]. by rewrite IH.
Qed.

Lemma split_first_whole h : comma ∉ h → split_first comma h = h.
Proof.
  induction h as [|c h IH]; intros Hh; simpl; [done|].
  apply not_elem_of_cons in Hh as [Hc Hh].
  destruct (Z.eqb_spec c comma); [done|]. by rewrite IH.
Qed.

Lemma track_serverDetectedIP st req data s :
  body req = Some data → (track st req).2 = Track200 s →
  Session.serverDetectedIP s
  = js_or (js_or (js_or (get data "ip") (forwarded_first req))
                 (header req "x-real-ip"))
          (remoteAddress req).
Proof.
  intros Hbody. unfold track. rewrite Hbody.
  destruct (visitors st !! generateVisitorID data); simpl; by intros [= <-].
Qed.

End Detected.

(** X18.  The address recorded as serverDetectedIP is the one the body
    declares whenever that is present, whatever the headers and the
    connection say; without it, the text before the first comma of
    x-forwarded-for when that is not empty; without that, a non-empty
    x-real-ip; and only then the address of the connection. *)
Theorem serverDetectedIP_precedence
    (st : Store) (req : Request) (data : jsobj) (s : Session.t) :
  body req = Some data →
  (track st req).2 = Track200 s →
  (truthy (get data "ip") = true → Session.serverDetectedIP s = get data "ip")
  ∧ (truthy (get data "ip") = false →
     (∀ first rest,
        headers req !! "x-forwarded-for" = Some (first ++ comma :: rest)
        ∨ (headers req !! "x-forwarded-for" = Some first ∧ rest = []) →
        first ≠ [] → comma ∉ first →
        Session.serverDetectedIP s = JStr first)
     ∧ (forwarded_first req = JUndefined ∨ forwarded_first req = JStr [] →
        (∀ real, headers req !! "x-real-ip" = Some real → real ≠ [] →
                 Session.serverDetectedIP s = JStr real)
        ∧ (headers req !! "x-real-ip" = None
           ∨ headers req !! "x-real-ip" = Some [] →
           Session.serverDetectedIP s = remoteAddress req))).
Proof.
  intros Hbody Htrack.
  rewrite (track_serverDetectedIP st req data s Hbody Htrack).
  split; [intros Hip; unfold js_or; by rewrite !Hip|].
  intros Hip.
  assert (js_or (get data "ip") (forwarded_first req) = forwarded_first req)
    as -> by (unfold js_or; by rewrite Hip).
  split.
  - intros first rest Hxff Hne Hcomma.
    assert (forwarded_first req = JStr first) as ->.
    { unfold forwarded_first.
      destruct Hxff as [->|[-> _]];
        by rewrite ?split_first_app, ?split_first_whole. }
    unfold js_or. simpl.
    by repeat (rewrite bool_decide_eq_false_2 by done; simpl).
  - intros Hxff.
    assert (js_or (js_or (forwarded_first req) (header req "x-real-ip"))
                  (remoteAddress req)
            = js_or (header req "x-real-ip") (remoteAddress req)) as ->.
    { by destruct Hxff as [->| ->]. }
    unfold header. split.
    + intros real -> Hreal. unfold js_or. simpl.
      by repeat (rewrite bool_decide_eq_false_2 by done; simpl).
    + by intros [->| ->].
Qed.

(** The witness of X18: through a proxy that names 198.51.100.9, a body
    that declares its address keeps it, and one that declares none gets the
    proxy's first entry. *)
Lemma serverDetectedIP_precedence_witness :
  (∃ s, (track emptyStore (Sample4.proxied Sample.A_lisbon)).2 = Track200 s
        ∧ Session.serverDetectedIP s = JStr (str "203.0.113.7"))
  ∧ (∃ s, (track emptyStore (Sample4.proxied Sample4.no_ip)).2 = Track200 s
          ∧ Session.serverDetectedIP s = JStr (str "198.51.100.9")).
Proof.
  split.
  - destruct (track_visitor emptyStore (Sample4.proxied Sample.A_lisbon)
                Sample.A_lisbon eq_refl) as (s & v' & Htrack & _).
    exists s. split; [by rewrite Htrack|].
    apply (proj1 (serverDetectedIP_precedence emptyStore
                    (Sample4.proxied Sample.A_lisbon) Sample.A_lisbon s
                    eq_refl ltac:(by rewrite Htrack))).
    reflexivity.
  - destruct (track_visitor emptyStore (Sample4.proxied Sample4.no_ip)
                Sample4.no_ip eq_refl) as (s & v' & Htrack & _).
    exists s. split; [by rewrite Htrack|].
    apply (proj1 (proj2 (serverDetectedIP_precedence emptyStore
                    (Sample4.proxied Sample4.no_ip) Sample4.no_ip s
                    eq_refl ltac:(by rewrite Htrack)) eq_refl)
             (str "198.51.100.9") (str " 10.0.0.1")).
    + left. reflexivity.
    + done.
    + vm_compute. intros H. by repeat (apply elem_of_cons in H as [H|H]; [done|]);
        apply elem_of_nil in H.
Defined.

(** ** The digest in hexadecimal *)

Section Digest.

Lemma byte_hex_checked :
  forallb (λ b, match byte_hex b with
                | [hi; lo] =>
                    (16 * hex_value hi + hex_value lo =? b)
                    && is_lower_hex hi && is_lower_hex lo
                | _ => false
                end) (Z.of_nat <$> seq 0 256) = true.
Proof. by vm_compute. Qed.

Lemma byte_hex_two b :
  0 <= b < 256 →
  ∃ hi lo, byte_hex b = [hi; lo] ∧ 16 * hex_value hi + hex_value lo = b
           ∧ is_lower_hex hi = true ∧ is_lower_hex lo = true.
Proof.
  intros Hb.
  assert (List.In b (Z.of_nat <$> seq 0 256)) as Hin.
  { apply list_elem_of_In, list_elem_of_fmap.
    exists (Z.to_nat b). split; [lia|].
    apply list_elem_of_In, List.in_seq. lia. }
  apply (proj1 (List.forallb_forall _ _) byte_hex_checked) in Hin.
  destruct (byte_hex b) as [|hi [|lo [|]]]; try done.
  apply andb_prop in Hin as [[H1%Z.eqb_eq H2]%andb_prop H3].
  by exists hi, lo.
Qed.

Lemma hex_of_bytes_round_trip bytes :
  Forall (λ b, 0 <= b < 256) bytes →
  length (hex_of_bytes bytes) = (2 * length bytes)%nat
  ∧ bytes_of_hex (hex_of_bytes bytes) = bytes
  ∧ Forall (λ c, is_lower_hex c = true) (hex_of_bytes bytes).
Proof.
  unfold hex_of_bytes.
  induction 1 as [|b bytes Hb _ (IH1 & IH2 & IH3)]; [done|].
  destruct (byte_hex_two b Hb) as (hi & lo & E & Hval & Hhi & Hlo).
  rewrite fmap_cons. simpl concat. rewrite E. simpl.
  rewrite IH1, IH2, Hval. split; [lia|]. split; [done|].
  by repeat constructor.
Qed.

End Digest.

(** X12.  When the digest primitive settles to bytes, [sha256] prints two
    digits or letters from a to f per byte, and the bytes can be read back
    from its output: different digests never print alike. *)
Theorem sha256_prints_every_byte
    (digest : jsstring → outcome (list Z)) (s : jsstring) (bytes : list Z) :
  digest s = Returns bytes →
  Forall (λ b, 0 <= b < 256) bytes →
  length (sha256 (Some digest) s) = (2 * length bytes)%nat
  ∧ bytes_of_hex (sha256 (Some digest) s) = bytes
  ∧ Forall (λ c, is_lower_hex c = true) (sha256 (Some digest) s).
Proof.
  intros Hdigest Hbytes. unfold sha256. rewrite Hdigest.
  by apply hex_of_bytes_round_trip.
Qed.

(** The witness of X12: a digest of the three bytes 0, 10 and 255. *)
Lemma sha256_prints_every_byte_witness :
  length (sha256 (Some (λ _, Returns [0; 10; 255])) (str "x")) = (2 * 3)%nat
  ∧ bytes_of_hex (sha256 (Some (λ _, Returns [0; 10; 255])) (str "x"))
    = [0; 10; 255]
  ∧ Forall (λ c, is_lower_hex c = true)
           (sha256 (Some (λ _, Returns [0; 10; 255])) (str "x")).
Proof.
  apply (sha256_prints_every_byte (λ _, Returns [0; 10; 255]) (str "x")
           [0; 10; 255]); [reflexivity|]. repeat constructor; lia.
Defined.

(** ** The region correction *)

Section Correction.


End Correction.


(** A first match without admin1 hides a later complete one; a null element
    before the match, or a city with a lone surrogate, keeps the region. *)
Example correctLocation_samples :
  let br := JStr (str "BR") in
  let given := JStr (str "Sao Paulo") in
  let answer l := Returns {| geo_json := Returns (Some (Results l)) |} in
  correctLocation
    (answer [Some {[ "country_code" := JStr (str "US"); "admin1" := JStr (str "Texas") ]};
             Some {[ "country_code" := br ]};
             Some {[ "country_code" := br; "admin1" := JStr (str "Parana") ]}])
    (JStr (str "Londrina")) br given
  = Returns {| correctedRegion := given; correctedCountry := JNull |}
  ∧ correctLocation
      (answer [None; Some {[ "country_code" := br; "admin1" := JStr (str "Parana") ]}])
      (JStr (str "Londrina")) br given
    = Returns {| correctedRegion := given; correctedCountry := JNull |}
  ∧ correctLocation
      (answer [Some {[ "country_code" := br; "admin1" := JStr (str "Parana") ]}])
      (JStr [55357]) br given
    = Returns {| correctedRegion := given; correctedCountry := JNull |}
  ∧ correctLocation
      (answer [Some {[ "country_code" := br; "admin1" := JStr (str "Parana");
                       "country" := JStr (str "Brasil") ]}])
      (JStr (str "Londrina")) br given
    = Returns {| correctedRegion := JStr (str "Parana");
                 correctedCountry := JStr (str "Brasil") |}.
Proof. by vm_compute. Qed.

(** ** The device type *)

Section Device.

Lemma starts_with_ci_app pattern m post :
  Forall2 (λ a b, canonical a = canonical b) pattern m →
  starts_with_ci pattern (m ++ post) = true.
Proof.
  induction 1 as [|a b pattern m Hab _ IH]; [by destruct post|].
  simpl. rewrite Hab, Z.eqb_refl. done.
Qed.

Lemma test_ci_app pattern pre m post :
  Forall2 (λ a b, canonical a = canonical b) pattern m →
  test_ci pattern (pre ++ m ++ post) = true.
Proof.
  intros Hm. induction pre as [|c pre IH].
  - simpl. destruct (m ++ post) eqn:E; simpl;
      rewrite <- E, starts_with_ci_app by done; done.
  - simpl. rewrite IH. apply orb_true_r.
Qed.

End Device.

(** X14.  A user agent that holds "Mobi" or "Android" anywhere, in any mix
    of upper and lower case, is a Mobile one, whatever else it holds: the
    marks of a tablet are only looked for afterwards. *)
Theorem detectDeviceType_mobile_first (pre m post : jsstring) :
  Forall2 (λ a b, canonical a = canonical b) (str "Mobi") m
  ∨ Forall2 (λ a b, canonical a = canonical b) (str "Android") m →
  detectDeviceType (pre ++ m ++ post) = str "Mobile".
Proof.
  intros [Hm|Hm]; unfold detectDeviceType;
    rewrite (test_ci_app _ pre m post Hm); by rewrite ?orb_true_r.
Qed.

(** The witness of X14: the user agent of an iPad, which holds "Mobile",
    and one that holds "ANDROID" and "Tablet". *)
Lemma detectDeviceType_mobile_first_witness :
  detectDeviceType Sample2.ipad_ua = str "Mobile"
  ∧ detectDeviceType (str "Mozilla/5.0 (Linux; " ++ str "ANDROID"
                      ++ str " 13; Tablet) Safari") = str "Mobile".
Proof.
  split.
  - apply (detectDeviceType_mobile_first
             (str "Mozilla/5.0 (iPad; CPU OS 16_6 like Mac OS X) AppleWebKit/605.1.15 (KHTML, like Gecko) Version/16.6 ")
             (str "Mobi") (str "le/15E148 Safari/604.1")).
    left. repeat constructor.
  - apply detectDeviceType_mobile_first. right. repeat constructor.
Defined.

Example detectDeviceType_samples :
  detectDeviceType (str "Mozilla/5.0 (iPad; CPU OS 9_3) Safari") = str "Tablet"
  ∧ detectDeviceType Sample2.chrome_ua = str "Desktop".
Proof. by vm_compute. Qed.

(** ** The tiers of the resolver *)

Section Tiers.

Lemma primary_depends net net' :
  ipapi_co net' = ipapi_co net → primary net' = primary net.
Proof. unfold primary. by intros ->. Qed.

Lemma secondary_depends net net' :
  ip_api_com net' = ip_api_com net → secondary net' = secondary net.
Proof. unfold secondary. by intros ->. Qed.

Lemma primary_returns net data :
  primary net = Returns data →
  truthy (get data "ip") = true ∧ truthy (get data "error") = false.
Proof.
  unfold primary, mbind, outcome_bind, throw_if, read.
  destruct (ipapi_co net) as [r|]; [|done].
  destruct (ok r); simpl; [|done].
  destruct (json r) as [[o|]|]; [|done..].
  destruct (truthy (get o "error")) eqn:Herr; simpl; [done|].
  destruct (truthy (get o "ip")) eqn:Hip; simpl; [|done].
  by intros [= <-].
Qed.

Lemma secondary_returns net data :
  secondary net = Returns data →
  Forall (λ k, get data k = JNull)
    ["utc_offset"; "country_population"; "country_calling_code";
     "currency_name"; "currency"; "languages"; "country_capital"].
Proof.
  unfold secondary, mbind, outcome_bind, throw_if, read.
  destruct (ip_api_com net) as [r|]; [|done].
  destruct (ok r); simpl; [|done].
  destruct (json r) as [[o|]|]; [|done..].
  destruct (strict_neq _ _); simpl; [done|].
  intros [= <-].
  generalize (get o "query"), (get o "city"), (get o "regionName"),
    (get o "countryCode"), (get o "country"), (get o "timezone"),
    (get o "isp"), (get o "lat"), (get o "lon").
  intros. repeat constructor.
Qed.

End Tiers.

(** X15.  The first tier that succeeds decides alone.  A record of the
    primary provider is returned as it came, has a truthy ip and no truthy
    error, and nothing the other two providers answer changes it; a record
    of the secondary provider, returned when the primary failed, has null in
    its seven unavailable fields whatever the third provider answers. *)
Theorem fetchIPData_first_success (net net' : Providers) (data : jsobj) :
  (primary net = Returns data →
   ipapi_co net' = ipapi_co net →
   fetchIPData net' = Returns data
   ∧ truthy (get data "ip") = true ∧ truthy (get data "error") = false)
  ∧ (throws (primary net) → secondary net = Returns data →
     ipapi_co net' = ipapi_co net → ip_api_com net' = ip_api_com net →
     fetchIPData net' = Returns data
     ∧ Forall (λ k, get data k = JNull)
         ["utc_offset"; "country_population"; "country_calling_code";
          "currency_name"; "currency"; "languages"; "country_capital"]).
Proof.
  split.
  - intros Hp E. split; [|by apply (primary_returns net)].
    unfold fetchIPData. by rewrite (primary_depends net net' E), Hp.
  - intros [e Hp] Hs E1 E2. split; [|by apply (secondary_returns net)].
    unfold fetchIPData.
    rewrite (primary_depends net net' E1), Hp. simpl.
    by rewrite (secondary_depends net net' E2), Hs.
Qed.

(** The witness of X15: the first tier answers, the others are first down
    and then answer 500; the second tier answers after a rate-limited
    first. *)
Lemma fetchIPData_first_success_witness :
  (∃ data, fetchIPData (Sample3.first_tier Sample3.answers_500) = Returns data
           ∧ truthy (get data "ip") = true ∧ truthy (get data "error") = false)
  ∧ (∃ data, fetchIPData (Sample3.second_tier Sample3.answers_500) = Returns data
             ∧ Forall (λ k, get data k = JNull)
                 ["utc_offset"; "country_population"; "country_calling_code";
                  "currency_name"; "currency"; "languages"; "country_capital"]).
Proof.
  split; eexists.
  - apply (proj1 (fetchIPData_first_success
                    (Sample3.first_tier (Throws FetchRejected))
                    (Sample3.first_tier Sample3.answers_500) _));
      reflexivity.
  - apply (proj2 (fetchIPData_first_success
                    (Sample3.second_tier (Throws FetchRejected))
                    (Sample3.second_tier Sample3.answers_500) _));
      [by eexists|reflexivity..].
Defined.
